(** * Drag-and-drop demo pages: state handlers and their properties

    A shallow embedding of the end-of-drag handlers, reset actions and
    local-storage effects of the example pages (sortable list, custom
    overlay, Kanban board, multiple containers, free positioning).

    React state is threaded explicitly: a handler takes the state of the
    render it closes over and returns the state after its updates have been
    applied.  Every drag-end event is delivered after the previous update
    has been committed, so the [tasks] / [items] a handler closes over is
    the value its functional updater receives as [prev].

    Arrays and objects are immutable values here.  That matches the pages:
    every handler copies ([Array.from], spread, [slice], [map]) before it
    splices or pushes, so neither the previous state nor the module-level
    initial constants are ever written to. *)

From stdpp Require Import base strings list gmap pretty.
From Stdlib Require Import ZArith.

Local Open Scope string_scope.
Local Open Scope list_scope.
Local Open Scope Z_scope.

(** ** JavaScript values and built-ins used by the pages *)

Module Js.

(** Result of running a handler together with the render that follows:
    either the new state, or an uncaught [TypeError]. *)
Inductive outcome (A : Type) : Type :=
| Ok (a : A)
| TypeError.
Arguments Ok {A} a.
Arguments TypeError {A}.

Definition bind {A B} (m : outcome A) (k : A → outcome B) : outcome B :=
  match m with
  | Ok a => k a
  | TypeError => TypeError
  end.

(** Iterating a property read, as [[...o[k]]] and [Array.from(o[k])] do:
    [None] stands for a read that yields no array.  Spreading fails on
    [undefined] and on what [Object.prototype] provides; [Array.from] is
    only ever applied to own properties or [undefined]. *)
Definition iterate {A} (v : option (list A)) : outcome (list A) :=
  match v with
  | Some l => Ok l
  | None => TypeError
  end.

(** Truthiness of [string | undefined]: the empty string is falsy. *)
Definition truthy (v : option string) : bool :=
  match v with
  | Some s => negb (bool_decide (s = ""))
  | None => false
  end.

Section arrays.
Context {A : Type}.

(** Position of the first element satisfying [p]. *)
Fixpoint find_index (p : A → bool) (l : list A) : option nat :=
  match l with
  | [] => None
  | x :: l' => if p x then Some 0%nat else S <$> find_index p l'
  end.

(** [Array.prototype.findIndex]: [-1] when nothing matches. *)
Definition findIndex (p : A → bool) (l : list A) : Z :=
  match find_index p l with
  | Some i => Z.of_nat i
  | None => -1
  end.

(** [Array.prototype.find]. *)
Fixpoint find (p : A → bool) (l : list A) : option A :=
  match l with
  | [] => None
  | x :: l' => if p x then Some x else find p l'
  end.

(** [Array.prototype.some]. *)
Definition some (p : A → bool) (l : list A) : bool := existsb p l.

(** [array[i]]: [undefined] outside [0 .. length-1]. *)
Definition at_index (l : list A) (i : Z) : option A :=
  if i <? 0 then None else l !! Z.to_nat i.

(** The start position [splice] computes from its first argument:
    negative values count from the end, everything is clamped to
    [0 .. length]. *)
Definition splice_start (len : nat) (start : Z) : nat :=
  if start <? 0 then Z.to_nat (Z.max (Z.of_nat len + start) 0)
  else Nat.min (Z.to_nat start) len.

(** [array.splice(start, deleteCount, ...items)]: the array afterwards. *)
Definition splice (l : list A) (start : Z) (deleteCount : nat)
    (items : list A) : list A :=
  let s := splice_start (length l) start in
  take s l ++ items ++ drop (s + deleteCount) l.

(** The array of removed elements which that call returns. *)
Definition splice_removed (l : list A) (start : Z) (deleteCount : nat)
    : list A :=
  let s := splice_start (length l) start in
  take deleteCount (drop s l).

(** [arrayMove] of [@dnd-kit/sortable], which the pages import:
<<
  const newArray = array.slice();
  newArray.splice(to < 0 ? newArray.length + to : to, 0,
                  newArray.splice(from, 1)[0]);
  return newArray;
>>
    The target position is evaluated before the inner [splice] runs.
    When nothing is removed at [from] the library splices [undefined]
    into the copy; that result is no array of [A] and is [None] here. *)
Definition arrayMove (array : list A) (from to : Z) : option (list A) :=
  let newArray := array in
  let target := if to <? 0 then Z.of_nat (length newArray) + to else to in
  match splice_removed newArray from 1 with
  | x :: _ => Some (splice (splice newArray from 1 []) target 0 [x])
  | [] => None
  end.

Context `{EqDecision A}.

(** [Array.prototype.indexOf]. *)
Definition indexOf (x : A) (l : list A) : Z :=
  findIndex (λ y, bool_decide (y = x)) l.

(** [Array.prototype.includes]. *)
Definition includes (x : A) (l : list A) : bool :=
  some (λ y, bool_decide (y = x)) l.
End arrays.

(** *** Plain objects used as records of arrays

    An object is the list of its own properties in [Object.keys] order.
    The handlers only ever overwrite properties that already exist, which
    leaves that order alone. *)
Section objects.
Context {V : Type}.

Definition obj : Type := list (string * V).

Definition keys (o : obj) : list string := o.*1.
Definition values (o : obj) : list V := o.*2.

(** Own-property lookup. *)
Fixpoint get (o : obj) (k : string) : option V :=
  match o with
  | [] => None
  | (k', v) :: o' => if decide (k' = k) then Some v else get o' k
  end.

(** [{...o, [k]: v}]: overwrite in place, or add a last property. *)
Fixpoint set (o : obj) (k : string) (v : V) : obj :=
  match o with
  | [] => [(k, v)]
  | (k', v') :: o' =>
      if decide (k' = k) then (k, v) :: o' else (k', v') :: set o' k v
  end.

(** Property names every plain object inherits from [Object.prototype]. *)
Definition prototype_names : list string :=
  [ "constructor"; "__defineGetter__"; "__defineSetter__";
    "hasOwnProperty"; "__lookupGetter__"; "__lookupSetter__";
    "isPrototypeOf"; "propertyIsEnumerable"; "toString"; "valueOf";
    "__proto__"; "toLocaleString" ].

(** The [in] operator: own properties and inherited ones. *)
Definition js_in (k : string) (o : obj) : bool :=
  bool_decide (k ∈ keys o) || bool_decide (k ∈ prototype_names).
End objects.
Arguments obj V : clear implicits.

End Js.

Import Js.

(** The fields of dnd-kit's [DragEndEvent] that the list and board handlers
    read: the id of the dragged element and the id of the drop target, if
    any.  All draggables and droppables of these pages are registered under
    string ids, so [toString()] on an id is the identity. *)
Record DragEndEvent : Type := mkDragEnd {
  active : string;
  over : option string;
}.

(** Turns the array a list page is about to store into the page's next
    state: a list holding [undefined] makes the following render fail on
    [item.id]. *)
Definition render_items {A} (moved : option (list A)) : outcome (list A) :=
  match moved with
  | Some l => Ok l
  | None => TypeError
  end.

(** ** Sortable list page *)

Module SortableList.

Record Item : Type := mkItem {
  id : string;
  content : string;
  completed : bool;
}.

Definition initialItems : list Item :=
  [ mkItem "1" "Learn React basics" true;
    mkItem "2" "Build a to-do app" false;
    mkItem "3" "Learn about React hooks" false;
    mkItem "4" "Explore dnd-kit library" true;
    mkItem "5" "Create a sortable list" false;
    mkItem "6" "Add keyboard accessibility" false ].

Definition has_id (x : string) (item : Item) : bool :=
  bool_decide (id item = x).

Definition handleDragEnd (items : list Item) (event : DragEndEvent)
    : outcome (list Item) :=
  match over event with
  | Some overId =>
      if bool_decide (active event ≠ overId) then
        let oldIndex := findIndex (has_id (active event)) items in
        let newIndex := findIndex (has_id overId) items in
        render_items (arrayMove items oldIndex newIndex)
      else Ok items
  | None => Ok items
  end.

Definition resetList (items : list Item) : list Item := initialItems.

End SortableList.

(** ** Custom drag overlay page *)

Module CustomOverlay.

Record FileItem : Type := mkFile {
  id : string;
  name : string;
  type : string;
  size : string;
}.

Definition fileItems : list FileItem :=
  [ mkFile "file-1" "Document.pdf" "pdf" "2.4 MB";
    mkFile "file-2" "Photo.jpg" "image" "3.8 MB";
    mkFile "file-3" "Presentation.pptx" "presentation" "5.2 MB";
    mkFile "file-4" "Spreadsheet.xlsx" "spreadsheet" "1.7 MB";
    mkFile "file-5" "Archive.zip" "archive" "8.1 MB" ].

Record State : Type := mkState {
  items : list FileItem;
  activeItem : option FileItem;
}.

Definition initialState : State := mkState fileItems None.

Definition has_id (x : string) (item : FileItem) : bool :=
  bool_decide (id item = x).

Definition handleDragStart (st : State) (activeId : string) : State :=
  match find (has_id activeId) (items st) with
  | Some item => mkState (items st) (Some item)
  | None => st
  end.

(** The [setItems] updater of [handleDragEnd]. *)
Definition moveItems (items : list FileItem) (activeId overId : string)
    : option (list FileItem) :=
  let oldIndex := findIndex (has_id activeId) items in
  let newIndex := findIndex (has_id overId) items in
  arrayMove items oldIndex newIndex.

Definition handleDragEnd (st : State) (event : DragEndEvent)
    : outcome State :=
  bind
    match over event with
    | Some overId =>
        if bool_decide (active event ≠ overId)
        then render_items (moveItems (items st) (active event) overId)
        else Ok (items st)
    | None => Ok (items st)
    end
    (λ items', Ok (mkState items' None)).

Definition resetItems (st : State) : State :=
  mkState fileItems (activeItem st).

End CustomOverlay.

(** ** Kanban board page *)

Module Kanban.

Inductive Priority : Type := High | Medium | Low.

Record Task : Type := mkTask {
  id : string;
  content : string;
  priority : Priority;
}.

Definition Board : Type := obj (list Task).

Definition initialTasks : Board :=
  [ ("to-do",
     [ mkTask "task-1" "Research competitors" High;
       mkTask "task-2" "Update documentation" Medium;
       mkTask "task-3" "Review project scope" Low ]);
    ("in-progress",
     [ mkTask "task-4" "Design landing page" High;
       mkTask "task-5" "Implement drag and drop" Medium ]);
    ("completed",
     [ mkTask "task-6" "Team meeting" High;
       mkTask "task-7" "Set up project repository" Medium ]) ].

Record State : Type := mkState {
  tasks : Board;
  activeTask : option Task;
}.

Definition initialState : State := mkState initialTasks None.

Definition has_id (x : string) (task : Task) : bool :=
  bool_decide (id task = x).

(** [tasks[columnId].some(...)] for a column id taken from the object. *)
Definition column_has (tasks : Board) (taskId columnId : string) : bool :=
  match get tasks columnId with
  | Some column => some (has_id taskId) column
  | None => false
  end.

Definition findColumnOfTask (tasks : Board) (taskId : string)
    : option string :=
  find (column_has tasks taskId) (keys tasks).

Definition handleDragStart (st : State) (activeId : string) : State :=
  match findColumnOfTask (tasks st) activeId with
  | Some columnId =>
      if truthy (Some columnId) then
        match get (tasks st) columnId with
        | Some column =>
            match find (has_id activeId) column with
            | Some task => mkState (tasks st) (Some task)
            | None => st
            end
        | None => st
        end
      else st
  | None => st
  end.

(** The functional updater passed to [setTasks] in [handleDragEnd].
    [activeColumn] is truthy at this point, and both column names were
    found by [findColumnOfTask] among the keys of the board.  A column
    that would receive [undefined] as a task fails the next render on
    [task.id]. *)
Definition moveTask (activeId overId : string) (activeColumn : string)
    (overColumn : option string) (prevTasks : Board) : outcome Board :=
  if truthy overColumn && bool_decide (Some activeColumn ≠ overColumn) then
    let overColumn' := default "" overColumn in
    bind (iterate (get prevTasks activeColumn)) (λ activeItems,
    bind (iterate (get prevTasks overColumn')) (λ overItems,
      let activeIndex := findIndex (has_id activeId) activeItems in
      let overIndex := findIndex (has_id overId) overItems in
      let task := at_index activeItems activeIndex in
      let activeItems := splice activeItems activeIndex 1 [] in
      if js_in overId prevTasks then
        bind (iterate (get prevTasks overId)) (λ column,
        bind (iterate (option_map (λ t, [t]) task)) (λ task,
          Ok (set (set prevTasks activeColumn activeItems)
                  overId (column ++ task))))
      else
        bind (iterate (option_map (λ t, [t]) task)) (λ task,
          let position :=
            if 0 <=? overIndex then overIndex
            else Z.of_nat (length overItems) in
          let overItems := splice overItems position 0 task in
          Ok (set (set prevTasks activeColumn activeItems)
                  overColumn' overItems))))
  else if bool_decide (Some activeColumn = overColumn) then
    bind (iterate (get prevTasks activeColumn)) (λ items,
      let activeIndex := findIndex (has_id activeId) items in
      let overIndex := findIndex (has_id overId) items in
      bind (render_items (arrayMove items activeIndex overIndex))
        (λ moved, Ok (set prevTasks activeColumn moved)))
  else Ok prevTasks.

Definition handleDragEnd (st : State) (event : DragEndEvent)
    : outcome State :=
  match over event with
  | None => Ok st
  | Some overId =>
      let activeId := active event in
      if bool_decide (activeId = overId) then Ok st
      else
        let activeColumn := findColumnOfTask (tasks st) activeId in
        let overColumn := findColumnOfTask (tasks st) overId in
        if negb (truthy activeColumn) then Ok st
        else
          bind (moveTask activeId overId (default "" activeColumn)
                  overColumn (tasks st))
            (λ tasks', Ok (mkState tasks' None))
  end.

Definition resetBoard (st : State) : State :=
  mkState initialTasks (activeTask st).

End Kanban.

(** ** Multiple containers page *)

Module MultipleContainers.

Definition Containers : Type := obj (list string).

Definition initialItems : Containers :=
  [ ("Container A", ["item-1"; "item-2"]);
    ("Container B", ["item-3"]);
    ("Container C", ["item-4"; "item-5"]);
    ("root", []) ].

(** [items[key].includes(itemId)] for a key taken from the object. *)
Definition container_has (items : Containers) (itemId key : string) : bool :=
  match get items key with
  | Some l => includes itemId l
  | None => false
  end.

Definition findContainer (items : Containers) (itemId : string)
    : option string :=
  if js_in itemId items then Some itemId
  else find (container_has items itemId) (keys items).

(** The functional updater passed to [setItems]. *)
Definition moveItem (activeId activeContainer overContainer : string)
    (prev : Containers) : outcome Containers :=
  bind (iterate (get prev activeContainer)) (λ activeItems,
  bind (iterate (get prev overContainer)) (λ overItems,
    let activeIndex := indexOf activeId activeItems in
    let activeItems := splice activeItems activeIndex 1 [] in
    let overItems := overItems ++ [activeId] in
    Ok (set (set prev activeContainer activeItems)
            overContainer overItems))).

Definition handleDragEnd (items : Containers) (event : DragEndEvent)
    : outcome Containers :=
  match over event with
  | None => Ok items
  | Some overId =>
      let activeId := active event in
      let activeContainer := findContainer items activeId in
      let overContainer :=
        let found := findContainer items overId in
        if truthy found then found else Some overId in
      if negb (truthy activeContainer) || negb (truthy overContainer)
         || bool_decide (activeContainer = overContainer)
      then Ok items
      else moveItem activeId (default "" activeContainer)
             (default "" overContainer) items
  end.

End MultipleContainers.

(** ** Free positioning page *)

(** JavaScript numbers, kept abstract: the page only adds a drag delta to a
    coordinate and writes literals. *)
Class JsNumber (N : Type) : Type := {
  num_add : N → N → N;
  num_lit : Z → N;
}.

#[export] Instance Z_JsNumber : JsNumber Z := {|
  num_add := Z.add;
  num_lit := λ z, z;
|}.

(** [JSON.parse] and [JSON.stringify] at the type the page stores:
    [JSON_parse] is [None] when [JSON.parse] throws a [SyntaxError], which
    it does on the empty string.  The page hands whatever [JSON.parse]
    returns to [setItems] unchecked; texts that decode to something other
    than an array of items are outside this model ([JsonReader] below
    covers them). *)
Class JsonCodec (V : Type) : Type := {
  JSON_parse : string → option V;
  JSON_stringify : V → string;
  JSON_parse_empty : JSON_parse "" = None;
}.

Module FreePositioning.

Section page.
Context {N : Type} `{JsNumber N}.

Record Position : Type := mkPosition { x : N; y : N }.

Record PositionableItem : Type := mkItem {
  id : string;
  label : string;
  position : Position;
}.

Definition initialItems : list PositionableItem :=
  [ mkItem "item-1" "Item 1" (mkPosition (num_lit 50) (num_lit 50));
    mkItem "item-2" "Item 2" (mkPosition (num_lit 200) (num_lit 100));
    mkItem "item-3" "Item 3" (mkPosition (num_lit 350) (num_lit 150)) ].

(** The fields of [DragEndEvent] this page reads. *)
Record DragEnd : Type := mkDragEnd { activeId : string; delta : Position }.

(** The body of the [map] callback in [handleDragEnd]. *)
Definition moveBy (event : DragEnd) (item : PositionableItem)
    : PositionableItem :=
  if bool_decide (id item = activeId event) then
    mkItem (id item) (label item)
      (mkPosition (num_add (x (position item)) (x (delta event)))
                  (num_add (y (position item)) (y (delta event))))
  else item.

(** The [setItems] updater of [handleDragEnd]. *)
Definition handleDragEnd (prevItems : list PositionableItem)
    (event : DragEnd) : list PositionableItem :=
  moveBy event <$> prevItems.

Definition resetPositions (items : list PositionableItem)
    : list PositionableItem := initialItems.

(** *** The page with its local storage and console *)

Context `{JsonCodec (list PositionableItem)}.

Definition storage_key : string := "free-positioning-items".

Record Page : Type := mkPage {
  items : list PositionableItem;
  localStorage : gmap string string;
  console : list string;
}.

(** The first effect (run once, on mount).  Returns the value handed
    to [setItems], if any, and the console afterwards.  An absent key
    ([null]) and the empty string are both falsy. *)
Definition load_effect (p : Page)
    : option (list PositionableItem) * list string :=
  match localStorage p !! storage_key with
  | Some savedItems =>
      if bool_decide (savedItems ≠ "") then
        match JSON_parse savedItems with
        | Some parsed => (Some parsed, console p)
        | None => (None, console p ++ ["Failed to parse saved items:"])
        end
      else (None, console p)
  | None => (None, console p)
  end.

(** The second effect (dependency [items]): runs after every render in
    which [items] changed, with the items of that render. *)
Definition save_effect (p : Page) : Page :=
  mkPage (items p)
    (<[storage_key := JSON_stringify (items p)]> (localStorage p))
    (console p).

(** A state update followed by the render it causes and that render's
    effects. *)
Definition setItems (p : Page) (new : list PositionableItem) : Page :=
  save_effect (mkPage new (localStorage p) (console p)).

(** Mounting: the first render shows [initialItems]; both effects run
    once, in source order, with that render's [items]; a [setItems] issued
    by the load effect then causes a second render, after which the save
    effect runs again. *)
Definition mount (storage : gmap string string) : Page :=
  let first := mkPage initialItems storage [] in
  let '(loaded, console') := load_effect first in
  let after_effects :=
    save_effect (mkPage initialItems storage console') in
  match loaded with
  | Some parsed => setItems after_effects parsed
  | None => after_effects
  end.

Definition onDragEnd (p : Page) (event : DragEnd) : Page :=
  setItems p (handleDragEnd (items p) event).

Definition onReset (p : Page) : Page :=
  setItems p (resetPositions (items p)).

End page.
Arguments Position N : clear implicits.
Arguments PositionableItem N : clear implicits.
Arguments DragEnd N : clear implicits.
Arguments Page N : clear implicits.

End FreePositioning.


(** ** Free positioning: every stored text *)

(** What [JSON.parse] makes of a stored text, as the page experiences it:
    it throws a [SyntaxError]; or it returns an array of position records;
    or it returns a value that cannot be rendered as the items ([null], a
    number, a string, an object without [map], an array with an element
    that has no [position]).  The load effect hands the last kind to
    [setItems] like any other value, inside the [try] and without a log,
    and the render that follows throws on [items.map] or on
    [item.position.x].  (A value that renders although it is no array of
    position records, such as an array of objects whose [position] holds
    no numbers, has no place among the three.) *)
Inductive Parsed (V : Type) : Type :=
| Throws
| Items (v : V)
| Unrenderable.
Arguments Throws {V}.
Arguments Items {V} v.
Arguments Unrenderable {V}.

Class JsonReader (V : Type) : Type := {
  JSON_read : string → Parsed V;
  JSON_write : V → string;
  JSON_read_empty : JSON_read "" = Throws;
}.

(** The codec a reader gives on the texts [JsonCodec] speaks of, that is
    all texts but the unrenderable ones. *)
#[export] Instance reader_codec {V} `{JsonReader V} : JsonCodec V := {|
  JSON_parse := λ s,
    match JSON_read s with
    | Items v => Some v
    | Throws | Unrenderable => None
    end;
  JSON_stringify := JSON_write;
  JSON_parse_empty :=
    match eq_sym JSON_read_empty in _ = r
      return match r with Items v => Some v | _ => None end = None
    with eq_refl => eq_refl end;
|}.

(** Mounting, with the render caused by the load effect: the first render
    shows [initialItems]; the load effect reads the key; the save effect
    writes the text of [initialItems]; then the value handed to
    [setItems], if any, is rendered and, when that render succeeds, saved
    by the save effect. *)
Definition mount_and_render {N} `{JsNumber N}
    `{JsonReader (list (FreePositioning.PositionableItem N))}
    (storage : gmap string string) : outcome (FreePositioning.Page N) :=
  let after_effects console :=
    FreePositioning.save_effect
      (FreePositioning.mkPage FreePositioning.initialItems storage console) in
  match storage !! FreePositioning.storage_key with
  | Some savedItems =>
      if bool_decide (savedItems ≠ "") then
        match JSON_read savedItems with
        | Items parsed => Ok (FreePositioning.setItems (after_effects []) parsed)
        | Unrenderable => TypeError
        | Throws => Ok (after_effects ["Failed to parse saved items:"])
        end
      else Ok (after_effects [])
  | None => Ok (after_effects [])
  end.

(** *** A reader for integer coordinates *)

(** The texts [JSON.stringify] writes for the page's items when the
    coordinates are integers and ids and labels need no escaping: no
    white space, the fields in the order [id], [label], [position]. *)

Definition quote : string := String (Ascii.ascii_of_nat 34) EmptyString.
Definition backslash : string := String (Ascii.ascii_of_nat 92) EmptyString.

Definition key_text (name : string) : string := quote +:+ name +:+ quote +:+ ":".

Definition write_item (item : FreePositioning.PositionableItem Z) : string :=
  "{" +:+ key_text "id" +:+ quote +:+ FreePositioning.id item +:+ quote
  +:+ "," +:+ key_text "label"
  +:+ quote +:+ FreePositioning.label item +:+ quote
  +:+ "," +:+ key_text "position"
  +:+ "{" +:+ key_text "x"
  +:+ pretty (FreePositioning.x (FreePositioning.position item))
  +:+ "," +:+ key_text "y"
  +:+ pretty (FreePositioning.y (FreePositioning.position item))
  +:+ "}}".

Definition write_items (items : list (FreePositioning.PositionableItem Z))
    : string :=
  "[" +:+ String.concat "," (write_item <$> items) +:+ "]".

(** The rest of [s] behind the prefix [p]. *)
Fixpoint strip_prefix (p s : string) : option string :=
  match p, s with
  | EmptyString, _ => Some s
  | String a p', String b s' =>
      if bool_decide (a = b) then strip_prefix p' s' else None
  | String _ _, EmptyString => None
  end.

(** The characters up to the closing quote, and what follows it. *)
Fixpoint read_string (s : string) : option (string * string) :=
  match s with
  | EmptyString => None
  | String c rest =>
      if bool_decide (String c EmptyString = quote)
      then Some (EmptyString, rest)
      else if bool_decide (String c EmptyString = backslash) then None
      else '(text, rest') ← read_string rest; Some (String c text, rest')
  end.

Definition digit_value (c : Ascii.ascii) : option Z :=
  let n := Z.of_nat (Ascii.nat_of_ascii c) in
  if bool_decide (48 ≤ n ≤ 57) then Some (n - 48) else None.

Fixpoint read_digits (acc : Z) (s : string) : Z * string :=
  match s with
  | EmptyString => (acc, s)
  | String c rest =>
      match digit_value c with
      | Some d => read_digits (10 * acc + d) rest
      | None => (acc, s)
      end
  end.

(** An integer literal: an optional minus sign, then [0] or digits that
    do not start with [0]. *)
Definition read_integer (s : string) : option (Z * string) :=
  let '(sign, body) :=
    match strip_prefix "-" s with
    | Some rest => (-1, rest)
    | None => (1, s)
    end in
  match body with
  | EmptyString => None
  | String c rest =>
      match digit_value c with
      | Some 0 => Some (0, rest)
      | Some _ => let '(n, rest') := read_digits 0 body in Some (sign * n, rest')
      | None => None
      end
  end.

Definition read_item (s : string)
    : option (FreePositioning.PositionableItem Z * string) :=
  s ← strip_prefix ("{" +:+ key_text "id" +:+ quote) s;
  '(id, s) ← read_string s;
  s ← strip_prefix ("," +:+ key_text "label" +:+ quote) s;
  '(label, s) ← read_string s;
  s ← strip_prefix ("," +:+ key_text "position" +:+ "{" +:+ key_text "x") s;
  '(x, s) ← read_integer s;
  s ← strip_prefix ("," +:+ key_text "y") s;
  '(y, s) ← read_integer s;
  s ← strip_prefix "}}" s;
  Some (FreePositioning.mkItem id label (FreePositioning.mkPosition x y), s).

(** The items behind the opening bracket.  An item takes more than one
    character, so the length of the text bounds their number. *)
Fixpoint read_items (bound : nat) (s : string)
    : option (list (FreePositioning.PositionableItem Z)) :=
  match bound with
  | O => None
  | S bound =>
      '(item, s) ← read_item s;
      if bool_decide (s = "]") then Some [item]
      else s ← strip_prefix "," s;
           items ← read_items bound s;
           Some (item :: items)
  end.

(** Reads the texts [write_items] writes and a few values that are no
    array ([null], the booleans, an empty object, an integer); every
    other text counts as malformed.  That is what [JSON.parse] does with
    a text that is no JSON; a JSON text in another layout is not
    recognised. *)
Definition read_items_text (s : string)
    : Parsed (list (FreePositioning.PositionableItem Z)) :=
  if bool_decide (s = "[]") then Items []
  else
    match strip_prefix "[" s with
    | Some rest =>
        match read_items (String.length rest) rest with
        | Some items => Items items
        | None => Throws
        end
    | None =>
        if bool_decide (s ∈ ["null"; "true"; "false"; "{}"]) then Unrenderable
        else
          match read_integer s with
          | Some (_, EmptyString) => Unrenderable
          | _ => Throws
          end
    end.

#[export] Instance integer_reader
    : JsonReader (list (FreePositioning.PositionableItem Z)) := {|
  JSON_read := read_items_text;
  JSON_write := write_items;
  JSON_read_empty := eq_refl;
|}.
(** * Specification vocabulary *)

(** ** Boards: objects whose properties are arrays of items *)

Section board.
Context {A : Type} (ident : A → string).

(** Every item held by some container, container after container. *)
Definition contents (o : obj (list A)) : list A := concat (values o).

Definition all_ids (o : obj (list A)) : list string := ident <$> contents o.

(** Container [c] holds an item with identifier [x]. *)
Definition appears_in (o : obj (list A)) (c x : string) : Prop :=
  ∃ l, get o c = Some l ∧ x ∈ ident <$> l.

(** An identifier appears in at most one container. *)
Definition at_most_one_container (o : obj (list A)) : Prop :=
  ∀ x c1 c2, appears_in o c1 x → appears_in o c2 x → c1 = c2.

(** An identifier occurs at most once on the whole board. *)
Definition unique_ids (o : obj (list A)) : Prop := NoDup (all_ids o).

(** No item carries the name of a container. *)
Definition ids_apart (o : obj (list A)) : Prop :=
  ∀ x, x ∈ all_ids o → x ∉ keys o.
End board.

(** Position of the first item with a given identifier, for stating which
    of two items comes first. *)
Definition position_of {A} (ident : A → string) (x : string) (l : list A)
    : option nat :=
  find_index (λ a, bool_decide (ident a = x)) l.

Definition precedes {A} (ident : A → string) (a b : string) (l : list A)
    : Prop :=
  ∃ i j, position_of ident a l = Some i ∧ position_of ident b l = Some j
         ∧ (i < j)%nat.

(** ** Kanban board: the possible effects of a drop *)

Section kanban_moves.
Import Kanban.

(** What a successful [handleDragEnd] can have done to the columns. *)
Inductive moved (b : Board) (activeId overId : string) : Board → Prop :=
| moved_nothing : moved b activeId overId b
| moved_to_column ac column i t target :
    findColumnOfTask b activeId = Some ac →
    get b ac = Some column → column !! i = Some t → id t = activeId →
    get b overId = Some target →
    is_Some (findColumnOfTask b overId) →
    moved b activeId overId
      (set (set b ac (delete i column)) overId (target ++ [t]))
| moved_next_to_task ac oc column i t target j :
    findColumnOfTask b activeId = Some ac →
    findColumnOfTask b overId = Some oc → ac ≠ oc →
    get b ac = Some column → column !! i = Some t → id t = activeId →
    get b oc = Some target → (j ≤ length target)%nat →
    overId ∉ keys b →
    moved b activeId overId
      (set (set b ac (delete i column)) oc
         (take j target ++ t :: drop j target))
| moved_within_column ac column column' :
    findColumnOfTask b activeId = Some ac →
    get b ac = Some column → column' ≡ₚ column →
    moved b activeId overId (set b ac column').

End kanban_moves.

(** ** Multiple containers: the resolved drop destination *)

(** [findContainer(overId) || overId]. *)
Definition destination (items : MultipleContainers.Containers)
    (overId : string) : string :=
  match MultipleContainers.findContainer items overId with
  | Some c => if bool_decide (c = "") then overId else c
  | None => overId
  end.

(** On the multiple-containers page an item is its own identifier. *)
Definition item_id (x : string) : string := x.

(** ** The pages as transition systems *)

(** One user action on the Kanban board: a drag starts, a drag ends (with
    any active and over ids), or the board is reset. *)
Inductive kanban_step : Kanban.State → Kanban.State → Prop :=
| kanban_drag_start st activeId :
    kanban_step st (Kanban.handleDragStart st activeId)
| kanban_drag_end st event st' :
    Kanban.handleDragEnd st event = Ok st' → kanban_step st st'
| kanban_reset st :
    kanban_step st (Kanban.resetBoard st).

Definition kanban_reachable (st : Kanban.State) : Prop :=
  rtc kanban_step Kanban.initialState st.

(** One drop on the multiple-containers page.  Only items are draggable
    there, so the active id of an event is never the name of a container. *)
Inductive containers_step
    : MultipleContainers.Containers → MultipleContainers.Containers → Prop :=
| containers_drag_end items event items' :
    active event ∉ keys items →
    MultipleContainers.handleDragEnd items event = Ok items' →
    containers_step items items'.

Definition containers_reachable (items : MultipleContainers.Containers)
    : Prop :=
  rtc containers_step MultipleContainers.initialItems items.

(** * Further parts of the pages *)

(** ** Kanban board: what a column renders *)

(** The cards of [KanbanColumn]:
    [tasksIds.map((taskId) => tasks[id].find((task) => task.id === taskId)!)].
    A card is [None] where [find] yields [undefined]; reading [find] off a
    column that does not exist throws, which needs at least one id. *)
Definition KanbanColumn_cards (tasks : Kanban.Board) (id : string)
    (tasksIds : list string) : outcome (list (option Kanban.Task)) :=
  match get tasks id with
  | Some column => Ok ((λ taskId, find (Kanban.has_id taskId) column) <$> tasksIds)
  | None => match tasksIds with [] => Ok [] | _ :: _ => TypeError end
  end.

(** The page's call for one of its [columns = Object.keys(tasks)]:
    [tasksIds = tasks[columnId].map((task) => task.id)]. *)
Definition Kanban_column (tasks : Kanban.Board) (columnId : string)
    : outcome (list (option Kanban.Task)) :=
  bind (iterate (get tasks columnId)) (λ column,
    KanbanColumn_cards tasks columnId (Kanban.id <$> column)).

(** ** Labels cut out of identifiers *)

(** [s.split("-")]: the pieces between dashes; never empty. *)
Fixpoint split_dash (s : string) : list string :=
  match s with
  | EmptyString => [EmptyString]
  | String c rest =>
      if bool_decide (String c EmptyString = "-")
      then EmptyString :: split_dash rest
      else match split_dash rest with
           | piece :: pieces => String c piece :: pieces
           | [] => [String c EmptyString]
           end
  end.

(** Whether a dash occurs in a string. *)
Fixpoint has_dash (s : string) : bool :=
  match s with
  | EmptyString => false
  | String c rest => bool_decide (String c EmptyString = "-") || has_dash rest
  end.

(** The label of an item on the multiple-containers page:
    [`Item ${itemId.split("-")[1]}`]; a template literal prints a missing
    piece as [undefined]. *)
Definition item_label (itemId : string) : string :=
  String.append "Item " (default "undefined" (split_dash itemId !! 1%nat)).

(** The number line of a task card: [Task #{task.id.split("-")[1]}];
    JSX renders a missing piece as nothing. *)
Definition task_number (task : Kanban.Task) : string :=
  String.append "Task #" (default EmptyString
                            (split_dash (Kanban.id task) !! 1%nat)).

(** ** The list pages as transition systems *)

Inductive sortable_step
    : list SortableList.Item → list SortableList.Item → Prop :=
| sortable_drag_end items event items' :
    SortableList.handleDragEnd items event = Ok items' →
    sortable_step items items'
| sortable_reset items :
    sortable_step items (SortableList.resetList items).

Definition sortable_reachable (items : list SortableList.Item) : Prop :=
  rtc sortable_step SortableList.initialItems items.

Inductive overlay_step : CustomOverlay.State → CustomOverlay.State → Prop :=
| overlay_drag_start st activeId :
    overlay_step st (CustomOverlay.handleDragStart st activeId)
| overlay_drag_end st event st' :
    CustomOverlay.handleDragEnd st event = Ok st' → overlay_step st st'
| overlay_reset st :
    overlay_step st (CustomOverlay.resetItems st).

Definition overlay_reachable (st : CustomOverlay.State) : Prop :=
  rtc overlay_step CustomOverlay.initialState st.

(** * Properties *)

(** ** Arrays *)

Section array_facts.
Context {A : Type}.
Implicit Types (l : list A) (p : A → bool).

Lemma find_index_Some p l i :
  find_index p l = Some i →
  ∃ x, l !! i = Some x ∧ p x = true
       ∧ ∀ j y, (j < i)%nat → l !! j = Some y → p y = false.
Proof.
  revert i. induction l as [|a l IH]; intros i; simpl; [done|].
  destruct (p a) eqn:Hpa.
  - intros [= <-]. exists a. split_and!; [done..|]. intros; lia.
  - destruct (find_index p l) as [i'|] eqn:Hi'; simpl; [|done].
    intros [= <-]. destruct (IH i' eq_refl) as (x & Hx & Hpx & Hmin).
    exists x. split_and!; [done..|].
    intros [|j] y Hj Hy; simpl in Hy; [by simplify_eq|].
    apply (Hmin j); [lia|done].
Qed.

Lemma find_index_None p l :
  find_index p l = None ↔ ∀ x, x ∈ l → p x = false.
Proof.
  induction l as [|a l IH]; simpl.
  - split; [|done]. intros _ x Hx. by apply elem_of_nil in Hx.
  - destruct (p a) eqn:Hpa.
    + split; [done|]. intros Hall.
      rewrite (Hall a) in Hpa; [done|]. by left.
    + destruct (find_index p l) as [i|] eqn:Hi; simpl.
      * split; [done|]. intros Hall.
        destruct IH as [_ IH]. discriminate IH.
        intros x Hx. apply Hall. by right.
      * split; [|done]. intros _ x [->|Hx]%elem_of_cons; [done|].
        by apply IH.
Qed.

Lemma find_index_is_Some p l x :
  x ∈ l → p x = true → is_Some (find_index p l).
Proof.
  intros Hx Hpx. destruct (find_index p l) eqn:Hf; [by eexists|].
  rewrite (proj1 (find_index_None p l) Hf x Hx) in Hpx. done.
Qed.

Lemma find_index_lt p l i : find_index p l = Some i → (i < length l)%nat.
Proof.
  intros (x & Hx & _)%find_index_Some. by eapply lookup_lt_Some.
Qed.

Lemma findIndex_range p l : -1 ≤ findIndex p l < Z.of_nat (length l).
Proof.
  unfold findIndex. destruct (find_index p l) as [i|] eqn:Hi.
  - apply find_index_lt in Hi. lia.
  - lia.
Qed.

Lemma find_Some p l x : find p l = Some x → x ∈ l ∧ p x = true.
Proof.
  induction l as [|a l IH]; simpl; [done|].
  destruct (p a) eqn:Hpa.
  - intros [= <-]. split; [by left|done].
  - intros [??]%IH. split; [by right|done].
Qed.

Lemma find_None p l : find p l = None → ∀ x, x ∈ l → p x = false.
Proof.
  induction l as [|a l IH]; simpl; intros Hf x Hx.
  - by apply elem_of_nil in Hx.
  - destruct (p a) eqn:Hpa; [done|].
    apply elem_of_cons in Hx as [->|Hx]; [done|]. by apply IH.
Qed.

Lemma some_true p l : some p l = true ↔ ∃ x, x ∈ l ∧ p x = true.
Proof.
  unfold some. rewrite existsb_exists.
  split; intros (x & Hx & Hp); exists x; split; try done;
    by apply list_elem_of_In.
Qed.

(** [splice] at a position inside the array. *)
Lemma splice_start_nat (len i : nat) :
  (i ≤ len)%nat → splice_start len (Z.of_nat i) = i.
Proof.
  intros Hi. unfold splice_start.
  destruct (Z.ltb_spec (Z.of_nat i) 0); [lia|].
  rewrite Nat2Z.id. lia.
Qed.

Lemma splice_start_le len start : (splice_start len start ≤ len)%nat.
Proof.
  unfold splice_start. destruct (Z.ltb_spec start 0); lia.
Qed.

Lemma splice_start_lt len start :
  (0 < len)%nat → start < Z.of_nat len →
  (splice_start len start < len)%nat.
Proof.
  unfold splice_start. destruct (Z.ltb_spec start 0); lia.
Qed.

Lemma splice_delete l start :
  splice l start 1 [] = delete (splice_start (length l) start) l.
Proof.
  unfold splice. rewrite delete_take_drop. simpl. by rewrite Nat.add_1_r.
Qed.

Lemma splice_remove_at l i x :
  l !! i = Some x →
  splice l (Z.of_nat i) 1 [] = delete i l
  ∧ splice_removed l (Z.of_nat i) 1 = [x].
Proof.
  intros Hx. rewrite splice_delete. unfold splice_removed.
  rewrite splice_start_nat; [|apply lookup_lt_Some in Hx; lia].
  split; [done|]. by rewrite (drop_S _ _ _ Hx).
Qed.

Lemma splice_remove_some l start :
  l ≠ [] → start < Z.of_nat (length l) →
  ∃ i x, l !! i = Some x ∧ splice l start 1 [] = delete i l
         ∧ splice_removed l start 1 = [x].
Proof.
  intros Hne Hlt. set (i := splice_start (length l) start).
  assert (0 < length l)%nat as Hpos by (destruct l; [done|simpl; lia]).
  assert (i < length l)%nat as Hi by by apply splice_start_lt.
  destruct (lookup_lt_is_Some_2 l i Hi) as [x Hx].
  exists i, x. split_and!; [done|apply splice_delete|].
  unfold splice_removed. fold i. by rewrite (drop_S _ _ _ Hx).
Qed.

Lemma splice_insert l start x :
  ∃ j, (j ≤ length l)%nat ∧ j = splice_start (length l) start
       ∧ splice l start 0 [x] = take j l ++ x :: drop j l.
Proof.
  exists (splice_start (length l) start). split_and!; [|done|].
  - apply splice_start_le.
  - unfold splice. simpl. by rewrite Nat.add_0_r.
Qed.

Lemma insert_at_perm l j x : take j l ++ x :: drop j l ≡ₚ x :: l.
Proof.
  rewrite <-Permutation_middle. by rewrite take_drop.
Qed.

Lemma delete_perm l i x : l !! i = Some x → x :: delete i l ≡ₚ l.
Proof. intros Hx. symmetry. by apply delete_Permutation. Qed.

(** [arrayMove] never loses or duplicates an element, provided [from]
    designates one. *)
Lemma arrayMove_perm l from to :
  l ≠ [] → from < Z.of_nat (length l) →
  ∃ l', arrayMove l from to = Some l' ∧ l' ≡ₚ l.
Proof.
  intros Hne Hfrom. unfold arrayMove.
  destruct (splice_remove_some l from Hne Hfrom) as (i & x & Hx & -> & ->).
  destruct (splice_insert (delete i l)
    (if to <? 0 then Z.of_nat (length l) + to else to) x)
    as (j & _ & _ & ->).
  eexists. split; [done|].
  rewrite insert_at_perm. by apply delete_perm.
Qed.

Lemma arrayMove_Some_perm l from to l' :
  arrayMove l from to = Some l' → l' ≡ₚ l.
Proof.
  unfold arrayMove, splice_removed.
  set (s := splice_start (length l) from).
  destruct (drop s l) as [|x k] eqn:Hdrop; simpl; [done|].
  intros [= <-].
  assert (l !! s = Some x) as Hx.
  { rewrite <-(take_drop s l) at 1. rewrite Hdrop.
    rewrite lookup_app_r; rewrite length_take; [|lia].
    assert (s ≤ length l)%nat by apply splice_start_le.
    by replace (s - s `min` length l)%nat with 0%nat by lia. }
  rewrite splice_delete. fold s.
  destruct (splice_insert (delete s l)
    (if to <? 0 then Z.of_nat (length l) + to else to) x)
    as (j & _ & _ & ->).
  rewrite insert_at_perm. by apply delete_perm.
Qed.

Lemma arrayMove_empty from to : arrayMove (@nil A) from to = None.
Proof.
  unfold arrayMove, splice_removed. simpl. by rewrite drop_nil.
Qed.

(** [arrayMove] between two valid positions: the moved element lands on
    the target position. *)
Lemma arrayMove_at l i j x :
  l !! i = Some x → (j < length l)%nat →
  arrayMove l (Z.of_nat i) (Z.of_nat j)
  = Some (take j (delete i l) ++ x :: drop j (delete i l)).
Proof.
  intros Hx Hj. unfold arrayMove.
  destruct (splice_remove_at _ _ _ Hx) as [-> ->].
  destruct (Z.ltb_spec (Z.of_nat j) 0); [lia|].
  unfold splice. simpl. rewrite Nat.add_0_r.
  rewrite splice_start_nat; [done|].
  rewrite length_delete; [|by eexists]. lia.
Qed.
End array_facts.

(** ** Objects *)

Section object_facts.
Context {V : Type}.
Implicit Types (o : obj V) (k : string).

Lemma get_Some_key o k v : get o k = Some v → k ∈ keys o.
Proof.
  induction o as [|[k' v'] o IH]; simpl; [done|].
  case_decide; [intros _; subst; by left|].
  intros Hg. right. by apply IH.
Qed.

Lemma get_key_is_Some o k : k ∈ keys o → is_Some (get o k).
Proof.
  induction o as [|[k' v'] o IH]; simpl.
  - by intros ?%elem_of_nil.
  - case_decide; [by eexists|].
    intros [->|?]%elem_of_cons; [done|]. by apply IH.
Qed.



Lemma keys_set o k v : k ∈ keys o → keys (set o k v) = keys o.
Proof.
  induction o as [|[k' v'] o IH]; simpl.
  - by intros ?%elem_of_nil.
  - case_decide; simpl; [by subst|].
    intros [->|?]%elem_of_cons; [done|]. f_equal. by apply IH.
Qed.
End object_facts.

(** ** Boards *)

Section board_facts.
Context {A : Type}.
Implicit Types (o : obj (list A)) (l : list A) (k : string).

Lemma contents_cons k l o : contents ((k, l) :: o) = l ++ contents o.
Proof. done. Qed.

(** Overwriting one container exchanges its items and nothing else. *)
Lemma contents_set o k l :
  get o k = Some l →
  ∃ R, contents o ≡ₚ l ++ R ∧ ∀ l', contents (set o k l') ≡ₚ l' ++ R.
Proof.
  induction o as [|[k' v'] o IH]; simpl; [done|].
  case_decide.
  - intros [= ->]. exists (contents o). rewrite contents_cons.
    split; [done|]. intros l'. by rewrite contents_cons.
  - intros (R & HR & Hset)%IH. exists (v' ++ R). rewrite contents_cons.
    split.
    + rewrite HR. by rewrite !(assoc app), (comm app v' l).
    + intros l'. rewrite contents_cons, Hset.
      by rewrite !(assoc app), (comm app v' l').
Qed.

(** Overwriting two different containers. *)
Lemma contents_set2 o k1 k2 l1 l2 :
  k1 ≠ k2 → get o k1 = Some l1 → get o k2 = Some l2 →
  ∃ R, contents o ≡ₚ l1 ++ l2 ++ R
       ∧ ∀ l1' l2', contents (set (set o k1 l1') k2 l2') ≡ₚ l1' ++ l2' ++ R.
Proof.
  intros Hne. induction o as [|[k v] o IH]; simpl; [done|].
  destruct (decide (k = k1)) as [->|Hk1].
  - intros [= ->]. rewrite decide_False by done. intros Hg2.
    destruct (contents_set o k2 l2 Hg2) as (R & HR & Hset).
    exists R. rewrite contents_cons. split; [by rewrite HR|].
    intros l1' l2'. simpl. rewrite decide_False by done.
    by rewrite contents_cons, Hset.
  - intros Hg1. destruct (decide (k = k2)) as [->|Hk2].
    + intros [= ->].
      destruct (contents_set o k1 l1 Hg1) as (R & HR & Hset).
      exists R. rewrite contents_cons. split.
      * rewrite HR. by rewrite !(assoc app), (comm app l2 l1).
      * intros l1' l2'. simpl. rewrite decide_True by done.
        rewrite contents_cons, Hset.
        by rewrite !(assoc app), (comm app l2' l1').
    + intros Hg2. destruct (IH Hg1 Hg2) as (R & HR & Hset).
      exists (v ++ R). rewrite contents_cons. split.
      * rewrite HR. rewrite !(assoc app). f_equiv.
        by rewrite (comm app v), <-!(assoc app), (comm app v).
      * intros l1' l2'. simpl. rewrite decide_False by done.
        rewrite contents_cons, Hset. rewrite !(assoc app). f_equiv.
        by rewrite (comm app v), <-!(assoc app), (comm app v).
Qed.

Lemma get_contents o k l x : get o k = Some l → x ∈ l → x ∈ contents o.
Proof.
  intros (R & -> & _)%contents_set Hx. apply elem_of_app. by left.
Qed.

Context (ident : A → string).

Lemma appears_in_all_ids o c x : appears_in ident o c x → x ∈ all_ids ident o.
Proof.
  intros (l & Hg & (a & -> & Ha)%list_elem_of_fmap).
  apply list_elem_of_fmap. exists a. split; [done|].
  by eapply get_contents.
Qed.

(** Global uniqueness of identifiers gives the container invariant. *)
Lemma unique_ids_at_most_one o :
  unique_ids ident o → at_most_one_container ident o.
Proof.
  unfold unique_ids, all_ids.
  intros Hnd x c1 c2 (l1 & Hg1 & Hx1) (l2 & Hg2 & Hx2).
  destruct (decide (c1 = c2)) as [|Hne]; [done|exfalso].
  destruct (contents_set2 o c1 c2 l1 l2 Hne Hg1 Hg2) as (R & HR & _).
  rewrite HR, !fmap_app in Hnd.
  apply NoDup_app in Hnd as (_ & Hdisj & _).
  apply (Hdisj x Hx1). apply elem_of_app. by left.
Qed.
End board_facts.

(** ** Outcomes *)

#[global] Arguments splice : simpl never.
#[global] Arguments splice_removed : simpl never.
#[global] Arguments arrayMove : simpl never.
#[global] Arguments findIndex : simpl never.
#[global] Arguments at_index : simpl never.
#[global] Arguments js_in : simpl never.

Lemma bind_Ok {A B} (m : outcome A) (k : A → outcome B) b :
  bind m k = Ok b → ∃ a, m = Ok a ∧ k a = Ok b.
Proof. destruct m as [a|]; simpl; [|done]. intros Hk. by exists a. Qed.

Lemma iterate_Ok {A} (v : option (list A)) l : iterate v = Ok l → v = Some l.
Proof. destruct v; simpl; congruence. Qed.

Lemma render_items_Ok {A} (moved : option (list A)) l :
  render_items moved = Ok l → moved = Some l.
Proof. destruct moved; simpl; congruence. Qed.

Lemma truthy_Some v : truthy v = true → ∃ s, v = Some s ∧ s ≠ "".
Proof.
  destruct v as [s|]; simpl; [|done].
  intros Hs. exists s. split; [done|].
  apply negb_true_iff in Hs. by apply bool_decide_eq_false in Hs.
Qed.

(** Peels the [bind]s off a hypothesis stating a successful outcome. *)
Ltac outcome_inv H :=
  repeat match type of H with
  | bind _ _ = Ok _ =>
      let a := fresh "a" in
      let Ha := fresh "Ha" in
      apply bind_Ok in H as (a & Ha & H);
      first [ apply iterate_Ok in Ha | apply render_items_Ok in Ha | idtac ]
  end.

(** ** Kanban board *)

Section kanban_facts.
Import Kanban.
Implicit Types (b : Board) (st : State) (ev : DragEndEvent).

Lemma has_id_true x t : has_id x t = true ↔ id t = x.
Proof. unfold has_id. apply bool_decide_eq_true. Qed.

(** The column found for a task is a column of the board, and the first
    task with that id sits at the position [findIndex] reports. *)
Lemma findColumnOfTask_Some b x c :
  findColumnOfTask b x = Some c →
  ∃ column i t, get b c = Some column ∧ column !! i = Some t ∧ id t = x
                ∧ find_index (has_id x) column = Some i.
Proof.
  unfold findColumnOfTask, column_has. intros [_ Hhas]%find_Some.
  destruct (get b c) as [column|]; [|done].
  apply some_true in Hhas as (t & Ht & Hid).
  destruct (find_index_is_Some _ _ _ Ht Hid) as [i Hi].
  destruct (find_index_Some _ _ _ Hi) as (t' & Ht' & Hid' & _).
  exists column, i, t'. split_and!; try done. by apply has_id_true.
Qed.

Lemma findColumnOfTask_id b x c : findColumnOfTask b x = Some c → x ∈ all_ids id b.
Proof.
  intros (column & i & t & Hg & Ht & <- & _)%findColumnOfTask_Some.
  apply (appears_in_all_ids id b c). exists column. split; [done|].
  apply list_elem_of_fmap. exists t. split; [done|].
  by eapply list_elem_of_lookup_2.
Qed.

Lemma handleDragEnd_moved st ev st' :
  handleDragEnd st ev = Ok st' →
  ∃ overId, (over ev = Some overId ∨ tasks st' = tasks st)
            ∧ moved (tasks st) (active ev) overId (tasks st').
Proof.
  unfold handleDragEnd. destruct (over ev) as [overId|]; last first.
  { intros [= <-]. exists "". split; [by right|constructor]. }
  exists overId. split; [by left|]. revert H.
  case_bool_decide; [intros [= <-]; constructor|].
  destruct (truthy (findColumnOfTask (tasks st) (active ev))) eqn:Hac;
    simpl; [|intros [= <-]; constructor].
  apply truthy_Some in Hac as (ac & Hac & Hne). rewrite Hac. simpl.
  destruct (findColumnOfTask_Some _ _ _ Hac)
    as (column & i & t & Hcol & Ht & Hid & Hi).
  intros Hb. apply bind_Ok in Hb as (b' & Hmove & [= <-]). simpl.
  revert Hmove. unfold moveTask.
  destruct (truthy (findColumnOfTask (tasks st) overId)) eqn:Hoc; simpl.
  - apply truthy_Some in Hoc as (oc & Hoc & Hne'). rewrite Hoc. simpl.
    case_bool_decide as Hneq; simpl.
    + rewrite Hcol. simpl.
      destruct (findColumnOfTask_Some _ _ _ Hoc)
        as (target & j & u & Htarget & _ & _ & Hj).
      rewrite Htarget. simpl. unfold findIndex. rewrite Hi, Hj.
      unfold at_index. destruct (Z.ltb_spec (Z.of_nat i) 0); [lia|].
      rewrite Nat2Z.id, Ht. simpl.
      rewrite (proj1 (splice_remove_at _ _ _ Ht)).
      destruct (js_in overId (tasks st)) eqn:Hin.
      * intros Hb. outcome_inv Hb. injection Hb as <-.
        eapply moved_to_column; eauto.
      * intros [= <-].
        destruct (Z.leb_spec 0 (Z.of_nat j)); [|lia].
        destruct (splice_insert target (Z.of_nat j) t)
          as (j' & Hj' & _ & ->).
        eapply moved_next_to_task; eauto; [congruence|].
        unfold js_in in Hin. apply orb_false_elim in Hin as [Hin _].
        by apply bool_decide_eq_false in Hin.
    + case_bool_decide as Heq; [|intros [= <-]; constructor].
      rewrite Hcol. simpl. intros Hb. outcome_inv Hb. injection Hb as <-.
      destruct (arrayMove_perm column
        (findIndex (has_id (active ev)) column)
        (findIndex (has_id overId) column)) as (l' & Hl' & Hperm).
      { intros ->. done. }
      { apply findIndex_range. }
      rewrite Hl' in Ha. injection Ha as <-.
      eapply moved_within_column; eauto.
  - case_bool_decide as Heq; [|intros [= <-]; constructor].
    rewrite <-Heq in Hoc. simpl in Hoc.
    rewrite bool_decide_eq_false_2 in Hoc; done.
Qed.
End kanban_facts.

Section kanban_invariants.
Import Kanban.
Implicit Types (b : Board) (st : State) (ev : DragEndEvent).

(** A drop keeps the set of column names. *)
Lemma moved_keys b a o b' : moved b a o b' → keys b' = keys b.
Proof.
  destruct 1 as [|ac column i t target Hac Hcol Ht Hid Htarget Ho
                 |ac oc column i t target j Hac Hoc Hne Hcol Ht Hid Htarget Hj
                 |ac column column' Hac Hcol Hperm]; [done|..].
  - rewrite !keys_set; [done|by eapply get_Some_key|].
    rewrite keys_set; by eapply get_Some_key.
  - rewrite !keys_set; [done|by eapply get_Some_key|].
    rewrite keys_set; by eapply get_Some_key.
  - rewrite keys_set; [done|by eapply get_Some_key].
Qed.

(** A drop keeps every task, unless the drop target is a task that bears
    the name of the very column the dragged task sits in. *)
Lemma moved_contents b a o b' :
  moved b a o b' →
  (is_Some (findColumnOfTask b o) → findColumnOfTask b a ≠ Some o) →
  contents b' ≡ₚ contents b.
Proof.
  destruct 1 as [|ac column i t target Hac Hcol Ht Hid Htarget Ho
                 |ac oc column i t target j Hac Hoc Hne Hcol Ht Hid Htarget Hj
                 |ac column column' Hac Hcol Hperm]; intros Hsafe; [done|..].
  - assert (ac ≠ o) as Hne by (intros ->; by apply Hsafe).
    destruct (contents_set2 b ac o column target Hne Hcol Htarget)
      as (R & -> & ->).
    rewrite <-(assoc app target). simpl. rewrite <-!Permutation_middle.
    rewrite app_comm_cons. f_equiv. by apply delete_perm.
  - destruct (contents_set2 b ac oc column target Hne Hcol Htarget)
      as (R & -> & ->).
    rewrite insert_at_perm. simpl. rewrite <-!Permutation_middle.
    rewrite app_comm_cons. f_equiv. by apply delete_perm.
  - destruct (contents_set b ac column Hcol) as (R & -> & ->).
    by rewrite Hperm.
Qed.

Lemma ids_apart_safe b a o :
  ids_apart id b →
  is_Some (findColumnOfTask b o) → findColumnOfTask b a ≠ Some o.
Proof.
  intros Hapart [oc Hoc] Hac.
  apply (Hapart o); [by eapply findColumnOfTask_id|].
  destruct (findColumnOfTask_Some _ _ _ Hac) as (column & _ & _ & Hg & _).
  by eapply get_Some_key.
Qed.

(** The board invariant: identifiers are unique and no task is named
    like a column.  Every drop preserves it. *)
Lemma handleDragEnd_invariant st ev st' :
  unique_ids id (tasks st) → ids_apart id (tasks st) →
  handleDragEnd st ev = Ok st' →
  unique_ids id (tasks st') ∧ ids_apart id (tasks st')
  ∧ keys (tasks st') = keys (tasks st)
  ∧ contents (tasks st') ≡ₚ contents (tasks st).
Proof.
  intros Huniq Hapart (o & _ & Hmoved)%handleDragEnd_moved.
  pose proof (moved_keys _ _ _ _ Hmoved) as Hkeys.
  pose proof (moved_contents _ _ _ _ Hmoved
                (ids_apart_safe _ _ _ Hapart)) as Hperm.
  split_and!; [| |done..].
  - unfold unique_ids, all_ids in *. by rewrite Hperm.
  - intros x. unfold all_ids. rewrite Hperm, Hkeys. apply Hapart.
Qed.
End kanban_invariants.

(** ** Multiple containers *)

Section containers_facts.
Import MultipleContainers.
Implicit Types (items : Containers) (ev : DragEndEvent).

Lemma includes_true (x : string) (l : list string) :
  includes x l = true ↔ x ∈ l.
Proof.
  unfold includes. rewrite some_true. split.
  - intros (y & Hy & ->%bool_decide_eq_true). done.
  - intros Hx. exists x. split; [done|]. by apply bool_decide_eq_true.
Qed.

Lemma js_in_own k items : k ∈ keys items → js_in k items = true.
Proof.
  intros Hk. unfold js_in. by rewrite bool_decide_eq_true_2.
Qed.

(** [findContainer] answers with the id itself when it names a property,
    and otherwise with the first container that includes it. *)
Lemma findContainer_Some items x c :
  findContainer items x = Some c →
  (c = x ∧ js_in x items = true)
  ∨ (js_in x items = false ∧ ∃ l, get items c = Some l ∧ x ∈ l).
Proof.
  unfold findContainer. destruct (js_in x items) eqn:Hin.
  - intros [= <-]. by left.
  - intros [_ Hhas]%find_Some. right. split; [done|].
    unfold container_has in Hhas.
    destruct (get items c) as [l|]; [|done].
    exists l. split; [done|]. by apply includes_true.
Qed.

Lemma indexOf_elem (x : string) (l : list string) :
  x ∈ l →
  ∃ i, indexOf x l = Z.of_nat i ∧ l !! i = Some x
       ∧ ∀ j, (j < i)%nat → l !! j ≠ Some x.
Proof.
  intros Hx. unfold indexOf, findIndex.
  destruct (find_index_is_Some (λ y, bool_decide (y = x)) l x Hx)
    as [i Hi]; [by apply bool_decide_eq_true|].
  rewrite Hi. exists i.
  destruct (find_index_Some _ _ _ Hi) as (y & Hy & ->%bool_decide_eq_true
                                          & Hmin).
  split_and!; [done..|]. intros j Hj Hjx.
  specialize (Hmin j x Hj Hjx). by apply bool_decide_eq_false in Hmin.
Qed.

Lemma indexOf_not_elem (x : string) (l : list string) :
  x ∉ l → indexOf x l = -1.
Proof.
  intros Hx. unfold indexOf, findIndex.
  destruct (find_index _ l) as [i|] eqn:Hi; [|done].
  destruct (find_index_Some _ _ _ Hi) as (y & Hy & ->%bool_decide_eq_true
                                          & _).
  destruct Hx. by eapply list_elem_of_lookup_2.
Qed.

(** The destination the handler computes. *)
Lemma overContainer_destination items overId :
  (let found := findContainer items overId in
   if truthy found then found else Some overId)
  = Some (destination items overId).
Proof.
  unfold destination. simpl.
  destruct (findContainer items overId) as [c|]; simpl; [|done].
  by case_bool_decide.
Qed.

(** How [handleDragEnd] proceeds once a drop target is present. *)
Lemma handleDragEnd_over items a o :
  handleDragEnd items (mkDragEnd a (Some o))
  = match findContainer items a with
    | Some ac =>
        if bool_decide (ac = "") || bool_decide (destination items o = "")
           || bool_decide (ac = destination items o)
        then Ok items
        else moveItem a ac (destination items o) items
    | None => Ok items
    end.
Proof.
  unfold handleDragEnd. cbn [over active].
  rewrite overContainer_destination.
  destruct (findContainer items a) as [ac|]; simpl; [|done].
  repeat case_bool_decide; simplify_eq; done.
Qed.
End containers_facts.

Section containers_invariants.
Import MultipleContainers.
Implicit Types (items : Containers) (ev : DragEndEvent).

Lemma all_ids_item_id items : all_ids item_id items = contents items.
Proof. unfold all_ids. apply list_fmap_id. Qed.

Lemma moveItem_Ok a ac oc items items' :
  moveItem a ac oc items = Ok items' →
  ∃ src dst, get items ac = Some src ∧ get items oc = Some dst
    ∧ items' = set (set items ac (splice src (indexOf a src) 1 []))
                   oc (dst ++ [a]).
Proof.
  unfold moveItem. intros Hb. outcome_inv Hb. injection Hb as <-.
  by exists a0, a1.
Qed.

(** A successful drop either leaves the containers alone or moves the
    active id out of the container [findContainer] names. *)
Lemma handleDragEnd_Ok items ev items' :
  handleDragEnd items ev = Ok items' →
  items' = items
  ∨ ∃ o ac src dst,
      over ev = Some o ∧ findContainer items (active ev) = Some ac
      ∧ ac ≠ "" ∧ destination items o ≠ "" ∧ ac ≠ destination items o
      ∧ get items ac = Some src ∧ get items (destination items o) = Some dst
      ∧ items' = set (set items ac
                        (splice src (indexOf (active ev) src) 1 []))
                     (destination items o) (dst ++ [active ev]).
Proof.
  destruct ev as [a [o|]]; [|intros [= <-]; by left].
  rewrite handleDragEnd_over.
  destruct (findContainer items a) as [ac|] eqn:Hac;
    [|intros [= <-]; by left].
  destruct (_ || _) eqn:Hguard; [intros [= <-]; by left|].
  apply orb_false_elim in Hguard as [[H1 H2]%orb_false_elim H3].
  apply bool_decide_eq_false in H1, H2, H3.
  intros (src & dst & Hsrc & Hdst & ->)%moveItem_Ok. right.
  exists o, ac, src, dst. by split_and!.
Qed.

(** Unique ids that avoid the container names stay unique. *)
Lemma handleDragEnd_unique items ev items' :
  unique_ids item_id items → ids_apart item_id items →
  handleDragEnd items ev = Ok items' →
  unique_ids item_id items'.
Proof.
  unfold unique_ids, ids_apart. setoid_rewrite all_ids_item_id.
  intros Huniq Hapart [->|Hmove]%handleDragEnd_Ok; [done|].
  destruct Hmove as (o & ac & src & dst & _ & Hac & _ & _ & Hne
                     & Hsrc & Hdst & ->).
  destruct (contents_set2 items ac _ src dst Hne Hsrc Hdst)
    as (R & HR & ->).
  rewrite HR in Huniq.
  apply findContainer_Some in Hac as [[-> Hin]|[_ (l & Hl & Ha)]].
  - (* the active id names a container: it is no item *)
    assert (active ev ∉ contents items) as Hfresh.
    { intros Ha. apply (Hapart _ Ha). by eapply get_Some_key. }
    rewrite splice_delete, <-(assoc app dst). simpl.
    rewrite <-!Permutation_middle. apply NoDup_cons. split.
    + intros Ha. apply Hfresh. rewrite HR.
      eapply elem_of_sublist; [exact Ha|].
      apply sublist_app; [apply sublist_delete|done].
    + eapply sublist_NoDup; [exact Huniq|].
      apply sublist_app; [apply sublist_delete|done].
  - (* the active id is an item of its container *)
    simplify_eq. destruct (indexOf_elem _ _ Ha) as (i & -> & Hi & _).
    rewrite (proj1 (splice_remove_at _ _ _ Hi)).
    rewrite <-(assoc app dst). simpl. rewrite <-!Permutation_middle.
    rewrite app_comm_cons. by rewrite (delete_perm _ _ _ Hi).
Qed.
End containers_invariants.

(** ** Sortable list and custom overlay *)

Section list_pages_facts.
Implicit Types (event : DragEndEvent).

Lemma render_arrayMove_perm {A} (l : list A) from to l' :
  render_items (arrayMove l from to) = Ok l' → l' ≡ₚ l.
Proof. intros Hm%render_items_Ok. by eapply arrayMove_Some_perm. Qed.

Lemma render_arrayMove_total {A} (p q : A → bool) (l : list A) :
  l ≠ [] →
  ∃ l', render_items (arrayMove l (findIndex p l) (findIndex q l)) = Ok l'.
Proof.
  intros Hne.
  destruct (arrayMove_perm l (findIndex p l) (findIndex q l) Hne)
    as (l' & -> & _); [apply findIndex_range|].
  by exists l'.
Qed.

Lemma sortable_handleDragEnd_perm items event items' :
  SortableList.handleDragEnd items event = Ok items' → items' ≡ₚ items.
Proof.
  unfold SortableList.handleDragEnd.
  destruct (over event) as [o|]; [|by intros [= <-]].
  case_bool_decide; [|by intros [= <-]].
  apply render_arrayMove_perm.
Qed.

Lemma sortable_handleDragEnd_total items event :
  items ≠ [] → ∃ items', SortableList.handleDragEnd items event = Ok items'.
Proof.
  intros Hne. unfold SortableList.handleDragEnd.
  destruct (over event) as [o|]; [|by eexists].
  case_bool_decide; [|by eexists].
  by apply render_arrayMove_total.
Qed.

Lemma overlay_handleDragEnd_Ok st event st' :
  CustomOverlay.handleDragEnd st event = Ok st' →
  CustomOverlay.activeItem st' = None
  ∧ CustomOverlay.items st' ≡ₚ CustomOverlay.items st.
Proof.
  unfold CustomOverlay.handleDragEnd. intros Hb.
  apply bind_Ok in Hb as (items' & Hitems & [= <-]). simpl.
  split; [done|]. revert Hitems.
  destruct (over event) as [o|]; [|by intros [= <-]].
  case_bool_decide; [|by intros [= <-]].
  apply render_arrayMove_perm.
Qed.

Lemma overlay_handleDragEnd_total st event :
  CustomOverlay.items st ≠ [] →
  ∃ st', CustomOverlay.handleDragEnd st event = Ok st'.
Proof.
  intros Hne. unfold CustomOverlay.handleDragEnd.
  destruct (over event) as [o|]; [|by eexists].
  case_bool_decide; [|by eexists].
  unfold CustomOverlay.moveItems.
  destruct (render_arrayMove_total
    (CustomOverlay.has_id (active event)) (CustomOverlay.has_id o)
    (CustomOverlay.items st) Hne) as (l' & ->).
  by eexists.
Qed.
End list_pages_facts.

Section kanban_total.
Import Kanban.

(** The only way a drop can fail on the board: the drop target bears the
    name of a property inherited from [Object.prototype]. *)
Lemma handleDragEnd_total st ev :
  (∀ o, over ev = Some o → o ∉ prototype_names) →
  ∃ st', handleDragEnd st ev = Ok st'.
Proof.
  unfold handleDragEnd. destruct (over ev) as [overId|]; [|by eexists].
  intros Hproto. specialize (Hproto overId eq_refl).
  case_bool_decide; [by eexists|].
  destruct (truthy (findColumnOfTask (tasks st) (active ev))) eqn:Hac;
    simpl; [|by eexists].
  apply truthy_Some in Hac as (ac & Hac & Hne). rewrite Hac. simpl.
  destruct (findColumnOfTask_Some _ _ _ Hac)
    as (column & i & t & Hcol & Ht & Hid & Hi).
  unfold moveTask.
  destruct (truthy (findColumnOfTask (tasks st) overId)) eqn:Hoc; simpl.
  - apply truthy_Some in Hoc as (oc & Hoc & Hne'). rewrite Hoc. simpl.
    case_bool_decide as Hneq; simpl.
    + rewrite Hcol. simpl.
      destruct (findColumnOfTask_Some _ _ _ Hoc)
        as (target & j & u & Htarget & _ & _ & Hj).
      rewrite Htarget. simpl. unfold findIndex. rewrite Hi.
      unfold at_index. destruct (Z.ltb_spec (Z.of_nat i) 0); [lia|].
      rewrite Nat2Z.id, Ht. simpl.
      destruct (js_in overId (tasks st)) eqn:Hin; [|by eexists].
      unfold js_in in Hin. apply orb_true_iff in Hin as [Hin|Hin].
      * apply bool_decide_eq_true in Hin.
        destruct (get_key_is_Some _ _ Hin) as [l ->]. simpl. by eexists.
      * by apply bool_decide_eq_true in Hin.
    + case_bool_decide as Heq; [|by eexists].
      rewrite Hcol. simpl.
      destruct (render_arrayMove_total (has_id (active ev)) (has_id overId)
        column) as (l' & ->); [by intros ->|].
      simpl. by eexists.
  - case_bool_decide as Heq; [|by eexists].
    rewrite <-Heq in Hoc. simpl in Hoc.
    rewrite bool_decide_eq_false_2 in Hoc; done.
Qed.
End kanban_total.

(** ** Where a moved item lands *)

Section landing.
Context {A : Type}.
Implicit Types (l : list A).

(** Inserting [x] at position [j] of [delete i l]: [x] is at [j], and the
    element that was at [j] is its neighbour on the side [x] came from. *)
Lemma landing_lookup l i j x y :
  l !! i = Some x → l !! j = Some y → i ≠ j →
  let l' := take j (delete i l) ++ x :: drop j (delete i l) in
  l' !! j = Some x
  ∧ ((j < i)%nat → l' !! S j = Some y)
  ∧ ((i < j)%nat → l' !! (j - 1)%nat = Some y).
Proof.
  intros Hx Hy Hne l'.
  assert (i < length l)%nat as Hi by by eapply lookup_lt_Some.
  assert (j < length l)%nat as Hj by by eapply lookup_lt_Some.
  assert (length (delete i l) = length l - 1)%nat as Hlen
    by (apply length_delete; by eexists).
  assert (length (take j (delete i l)) = j) as Htake
    by (rewrite length_take; lia).
  split_and!.
  - by apply list_lookup_middle.
  - intros Hlt. unfold l'.
    rewrite lookup_app_r, Htake by lia.
    replace (S j - j)%nat with 1%nat by lia. simpl.
    rewrite lookup_drop, Nat.add_0_r.
    by rewrite list_lookup_delete_lt.
  - intros Hlt. unfold l'.
    rewrite lookup_app_l, lookup_take_lt by lia.
    rewrite list_lookup_delete_ge by lia.
    by replace (S (j - 1)) with j by lia.
Qed.

Context (ident : A → string).

Lemma position_of_lookup l k x :
  NoDup (ident <$> l) → l !! k = Some x →
  position_of ident (ident x) l = Some k.
Proof.
  intros Hnd Hx. unfold position_of.
  destruct (find_index_is_Some (λ a, bool_decide (ident a = ident x)) l x)
    as [k' Hk']; [by eapply list_elem_of_lookup_2
                 |by apply bool_decide_eq_true|].
  rewrite Hk'. f_equal.
  destruct (find_index_Some _ _ _ Hk') as (x' & Hx' & Hid%bool_decide_eq_true
                                           & _).
  apply (NoDup_lookup (ident <$> l) k' k (ident x) Hnd).
  - by rewrite list_lookup_fmap, Hx', <-Hid.
  - by rewrite list_lookup_fmap, Hx.
Qed.

Lemma position_of_Some l a i :
  position_of ident a l = Some i → ∃ x, l !! i = Some x ∧ ident x = a.
Proof.
  intros (x & Hx & Hid%bool_decide_eq_true & _)%find_index_Some.
  by exists x.
Qed.
End landing.

(** ** Free positioning: mounting *)

Section mount_facts.
Import FreePositioning.
Context {N : Type} `{JsNumber N} `{JsonCodec (list (PositionableItem N))}.
Implicit Types (storage : gmap string string).

(** The three ways the load effect can go. *)
Lemma mount_absent storage :
  storage !! storage_key = None ∨ storage !! storage_key = Some "" →
  mount storage
  = mkPage initialItems
      (<[storage_key := JSON_stringify initialItems]> storage) [].
Proof.
  intros Hkey. unfold mount, load_effect. cbn [localStorage console].
  destruct Hkey as [->| ->]; [done|].
  by rewrite bool_decide_eq_false_2 by (intros Hne; by apply Hne).
Qed.

Lemma mount_undecodable storage s :
  storage !! storage_key = Some s → s ≠ "" → JSON_parse s = None →
  mount storage
  = mkPage initialItems
      (<[storage_key := JSON_stringify initialItems]> storage)
      ["Failed to parse saved items:"].
Proof.
  intros Hkey Hne Hparse. unfold mount, load_effect.
  cbn [localStorage console]. rewrite Hkey.
  by rewrite bool_decide_eq_true_2, Hparse by done.
Qed.

Lemma mount_decoded storage s parsed :
  storage !! storage_key = Some s → JSON_parse s = Some parsed →
  mount storage
  = mkPage parsed (<[storage_key := JSON_stringify parsed]> storage) [].
Proof.
  intros Hkey Hparse.
  assert (s ≠ "") as Hne.
  { intros ->. rewrite JSON_parse_empty in Hparse. done. }
  unfold mount, load_effect. cbn [localStorage console]. rewrite Hkey.
  rewrite bool_decide_eq_true_2, Hparse by done.
  unfold setItems, save_effect. simpl. by rewrite insert_insert_eq.
Qed.

(** Mounting always falls under one of them. *)
Lemma mount_cases storage :
  (storage !! storage_key = None ∨ storage !! storage_key = Some "")
  ∨ (∃ s, storage !! storage_key = Some s ∧ s ≠ "" ∧ JSON_parse s = None)
  ∨ (∃ s parsed, storage !! storage_key = Some s
                 ∧ JSON_parse s = Some parsed).
Proof.
  destruct (storage !! storage_key) as [s|] eqn:Hkey; [|by left; left].
  destruct (decide (s = "")) as [->|Hne]; [by left; right|].
  destruct (JSON_parse s) as [parsed|] eqn:Hparse.
  - right; right. by exists s, parsed.
  - right; left. by exists s.
Qed.
End mount_facts.

(** ** Reachable states *)

Section reachable_facts.

Lemma kanban_handleDragStart_tasks st a :
  Kanban.tasks (Kanban.handleDragStart st a) = Kanban.tasks st.
Proof.
  unfold Kanban.handleDragStart.
  repeat (case_match; try done).
Qed.

(** Every state the Kanban board can reach has unique task ids, none of
    which names a column, and the three initial columns. *)
Lemma kanban_reachable_invariant :
  ∀ st, kanban_reachable st →
  unique_ids Kanban.id (Kanban.tasks st)
  ∧ ids_apart Kanban.id (Kanban.tasks st)
  ∧ keys (Kanban.tasks st) = keys Kanban.initialTasks.
Proof.
  assert (unique_ids Kanban.id Kanban.initialTasks
          ∧ ids_apart Kanban.id Kanban.initialTasks
          ∧ keys Kanban.initialTasks = keys Kanban.initialTasks) as Hinit.
  { split_and!; [|intros x Hx|done].
    - unfold unique_ids. apply (bool_decide_unpack _). by vm_compute.
    - revert x Hx. apply Forall_forall.
      apply (bool_decide_unpack _). by vm_compute. }
  unfold kanban_reachable. apply rtc_ind_r; [done|].
  intros mid st Hmid Hstep IH.
  - destruct IH as (Huniq & Hapart & Hkeys).
    destruct Hstep as [mid a|mid event st' Hend|mid].
    + by rewrite kanban_handleDragStart_tasks.
    + destruct (handleDragEnd_invariant mid event st' Huniq Hapart Hend)
        as (? & ? & Hk & _).
      split_and!; [done..|]. by rewrite Hk.
    + exact Hinit.
Qed.

(** A drop whose active id is no container name keeps the items, keeps
    them unique and keeps them apart from the container names. *)
Lemma containers_handleDragEnd_invariant items event items' :
  active event ∉ keys items →
  MultipleContainers.handleDragEnd items event = Ok items' →
  keys items' = keys items ∧ contents items' ≡ₚ contents items.
Proof.
  intros Hactive [->|Hmove]%handleDragEnd_Ok; [done|].
  destruct Hmove as (o & ac & src & dst & _ & Hac & _ & _ & Hne
                     & Hsrc & Hdst & ->).
  split.
  - rewrite !keys_set; [done|by eapply get_Some_key|].
    rewrite keys_set; by eapply get_Some_key.
  - destruct (contents_set2 items ac _ src dst Hne Hsrc Hdst)
      as (R & -> & ->).
    apply findContainer_Some in Hac as [[-> Hin]|[_ (l & Hl & Ha)]].
    + destruct Hactive. by eapply get_Some_key.
    + simplify_eq. destruct (indexOf_elem _ _ Ha) as (i & -> & Hi & _).
      rewrite (proj1 (splice_remove_at _ _ _ Hi)).
      rewrite <-(assoc app dst). simpl. rewrite <-!Permutation_middle.
      rewrite app_comm_cons. by rewrite (delete_perm _ _ _ Hi).
Qed.

Lemma containers_reachable_invariant :
  ∀ items, containers_reachable items →
  unique_ids item_id items ∧ ids_apart item_id items
  ∧ keys items = keys MultipleContainers.initialItems.
Proof.
  unfold containers_reachable. apply rtc_ind_r.
  - split_and!; [|intros x Hx|done].
    + unfold unique_ids. apply (bool_decide_unpack _). by vm_compute.
    + revert x Hx. apply Forall_forall.
      apply (bool_decide_unpack _). by vm_compute.
  - intros mid items Hmid Hstep IH.
    destruct IH as (Huniq & Hapart & Hkeys).
    destruct Hstep as [mid event items' Hactive Hend].
    destruct (containers_handleDragEnd_invariant _ _ _ Hactive Hend)
      as [Hk Hperm].
    split_and!.
    + unfold unique_ids, all_ids in *. by rewrite Hperm.
    + intros x. unfold all_ids. rewrite Hperm, Hk. apply Hapart.
    + by rewrite Hk.
Qed.
End reachable_facts.

(** * The pages' properties *)

(** Settles a closed decidable proposition by evaluation. *)
Ltac by_computation :=
  apply (bool_decide_unpack _); vm_compute; exact I.

(** ** Identifiers and containers *)

Lemma ids_apart_Forall {A} (ident : A → string) (o : obj (list A)) :
  Forall (λ x, x ∉ keys o) (all_ids ident o) → ids_apart ident o.
Proof. intros Hall x Hx. by eapply Forall_forall in Hall. Qed.

(** ** States the pages can reach *)

(** From the initial board, whatever drags start and end and however often
    the board is reset, every task id is in at most one column and the
    board holds exactly the tasks it started with. *)
Lemma kanban_reachable_one_container st :
  kanban_reachable st →
  at_most_one_container Kanban.id (Kanban.tasks st)
  ∧ contents (Kanban.tasks st) ≡ₚ contents Kanban.initialTasks.
Proof.
  unfold kanban_reachable. revert st. apply rtc_ind_r.
  - split; [|done]. apply unique_ids_at_most_one.
    unfold unique_ids. by_computation.
  - intros mid st Hmid Hstep [_ Hperm].
    destruct (kanban_reachable_invariant mid Hmid) as (Huniq & Hapart & _).
    destruct Hstep as [mid a|mid event st' Hend|mid].
    + rewrite kanban_handleDragStart_tasks. split; [|done].
      by apply unique_ids_at_most_one.
    + destruct (handleDragEnd_invariant mid event st' Huniq Hapart Hend)
        as (Huniq' & _ & _ & Hperm').
      split; [by apply unique_ids_at_most_one|by rewrite Hperm'].
    + split; [|done]. apply unique_ids_at_most_one.
      unfold unique_ids. by_computation.
Qed.

(** From the initial containers, drops of items keep every item in one
    container. *)
Lemma containers_reachable_one_container items :
  containers_reachable items →
  at_most_one_container item_id items
  ∧ contents items ≡ₚ contents MultipleContainers.initialItems.
Proof.
  unfold containers_reachable. revert items. apply rtc_ind_r.
  - split; [|done]. apply unique_ids_at_most_one.
    unfold unique_ids. by_computation.
  - intros mid items Hmid Hstep [_ Hperm].
    destruct (containers_reachable_invariant mid Hmid) as (Huniq & Hapart & _).
    destruct Hstep as [mid event items' Hactive Hend].
    destruct (containers_handleDragEnd_invariant _ _ _ Hactive Hend)
      as [_ Hperm'].
    split; [|by rewrite Hperm'].
    apply unique_ids_at_most_one.
    by apply (handleDragEnd_unique mid event).
Qed.

(** The list pages never lose or gain an item, so their lists are never
    empty. *)
Lemma sortable_reachable_perm items :
  sortable_reachable items → items ≡ₚ SortableList.initialItems.
Proof.
  unfold sortable_reachable. revert items. apply rtc_ind_r; [done|].
  intros mid items _ Hstep IH.
  destruct Hstep as [mid event items' Hend|mid]; [|done].
  by rewrite (sortable_handleDragEnd_perm _ _ _ Hend).
Qed.

Lemma overlay_reachable_perm st :
  overlay_reachable st → CustomOverlay.items st ≡ₚ CustomOverlay.fileItems.
Proof.
  unfold overlay_reachable. revert st. apply rtc_ind_r; [done|].
  intros mid st _ Hstep IH.
  destruct Hstep as [mid a|mid event st' Hend|mid]; [| |done].
  - unfold CustomOverlay.handleDragStart. by destruct (find _ _).
  - by rewrite (proj2 (overlay_handleDragEnd_Ok _ _ _ Hend)).
Qed.

(** On a board the page can reach, no task is named like a property the
    columns object inherits, and a drag end yields a state for every pair
    of ids. *)
Lemma kanban_reachable_total st event :
  kanban_reachable st → ∃ st', Kanban.handleDragEnd st event = Ok st'.
Proof.
  intros Hreach. destruct event as [a [o|]]; [|by eexists].
  destruct (decide (o ∈ prototype_names)) as [Hproto|Hproto]; last first.
  { apply handleDragEnd_total. by intros ? [= <-]. }
  assert (Kanban.findColumnOfTask (Kanban.tasks st) o = None) as Hoc.
  { destruct (Kanban.findColumnOfTask (Kanban.tasks st) o) as [oc|] eqn:Hoc;
      [exfalso|done].
    apply findColumnOfTask_id in Hoc.
    destruct (kanban_reachable_one_container st Hreach) as [_ Hperm].
    unfold all_ids in Hoc. rewrite Hperm in Hoc.
    revert Hproto Hoc. clear.
    assert (Forall (λ x, x ∉ prototype_names)
              (Kanban.id <$> contents Kanban.initialTasks)) as Hall
      by by_computation.
    intros Hproto Hoc. by eapply Forall_forall in Hall. }
  unfold Kanban.handleDragEnd. cbn [over active].
  case_bool_decide; [by eexists|].
  destruct (truthy (Kanban.findColumnOfTask (Kanban.tasks st) a)) eqn:Hac;
    [|by eexists].
  apply truthy_Some in Hac as (ac & -> & Hac). simpl.
  rewrite Hoc. unfold Kanban.moveTask. simpl. by eexists.
Qed.

(** The items of the multiple-containers page name no property of the
    state: not a container, and nothing an object inherits. *)
Lemma containers_reachable_item_names items a :
  containers_reachable items → a ∈ contents items → js_in a items = false.
Proof.
  intros Hreach Ha.
  destruct (containers_reachable_invariant items Hreach)
    as (_ & Hapart & _).
  destruct (containers_reachable_one_container items Hreach) as [_ Hperm].
  unfold js_in. apply orb_false_intro; apply bool_decide_eq_false_2.
  - apply Hapart. unfold all_ids, item_id. by rewrite list_fmap_id.
  - rewrite Hperm in Ha. revert Ha. clear.
    assert (Forall (λ x, x ∉ prototype_names)
              (contents MultipleContainers.initialItems)) as Hall
      by by_computation.
    intros Ha. by eapply Forall_forall in Hall.
Qed.

(** C1: on the Kanban board, in every state the page can reach and for
    every drag-end event, and on the multiple-containers page, in every
    state the page can reach and for every drag-end event of an item (the
    page makes only items draggable, so the active id is never the name
    of a container): if before the event every item identifier appears in
    at most one container, then after the state update every item
    identifier still appears in at most one container, and the containers
    together hold the same items as before, none of them twice. *)
Theorem drag_end_keeps_one_container :
  (∀ st event st',
     kanban_reachable st →
     at_most_one_container Kanban.id (Kanban.tasks st) →
     Kanban.handleDragEnd st event = Ok st' →
     at_most_one_container Kanban.id (Kanban.tasks st')
     ∧ unique_ids Kanban.id (Kanban.tasks st')
     ∧ contents (Kanban.tasks st') ≡ₚ contents (Kanban.tasks st))
  ∧ (∀ items event items',
       containers_reachable items → active event ∉ keys items →
       at_most_one_container item_id items →
       MultipleContainers.handleDragEnd items event = Ok items' →
       at_most_one_container item_id items'
       ∧ unique_ids item_id items'
       ∧ contents items' ≡ₚ contents items).
Proof.
  split.
  - intros st event st' Hreach _ Hend.
    destruct (kanban_reachable_invariant st Hreach) as (Huniq & Hapart & _).
    destruct (handleDragEnd_invariant st event st' Huniq Hapart Hend)
      as (Huniq' & _ & _ & Hperm).
    split_and!; [by apply unique_ids_at_most_one|done..].
  - intros items event items' Hreach Hactive _ Hend.
    destruct (containers_reachable_invariant items Hreach)
      as (Huniq & Hapart & _).
    pose proof (handleDragEnd_unique items event items' Huniq Hapart Hend)
      as Huniq'.
    destruct (containers_handleDragEnd_invariant _ _ _ Hactive Hend)
      as [_ Hperm].
    split_and!; [by apply unique_ids_at_most_one|done..].
Qed.

Lemma drag_end_keeps_one_container_witness :
  match Kanban.handleDragEnd Kanban.initialState
          (mkDragEnd "task-1" (Some "task-5")) with
  | Ok st' =>
      at_most_one_container Kanban.id (Kanban.tasks st')
      ∧ contents (Kanban.tasks st') ≡ₚ contents Kanban.initialTasks
  | TypeError => False
  end
  ∧ match MultipleContainers.handleDragEnd MultipleContainers.initialItems
            (mkDragEnd "item-1" (Some "Container B")) with
    | Ok items' =>
        at_most_one_container item_id items'
        ∧ contents items' ≡ₚ contents MultipleContainers.initialItems
    | TypeError => False
    end.
Proof.
  destruct drag_end_keeps_one_container as [Hkanban Hcontainers].
  split.
  - destruct (Kanban.handleDragEnd _ _) as [st'|] eqn:Hend.
    + destruct (Hkanban Kanban.initialState
                  (mkDragEnd "task-1" (Some "task-5")) st')
        as (Hone & _ & Hperm).
      * apply rtc_refl.
      * apply unique_ids_at_most_one. unfold unique_ids. by_computation.
      * exact Hend.
      * split; [exact Hone|exact Hperm].
    + vm_compute in Hend. discriminate Hend.
  - destruct (MultipleContainers.handleDragEnd _ _) as [items'|] eqn:Hend.
    + destruct (Hcontainers MultipleContainers.initialItems
                  (mkDragEnd "item-1" (Some "Container B")) items')
        as (Hone & _ & Hperm).
      * apply rtc_refl.
      * by_computation.
      * apply unique_ids_at_most_one. unfold unique_ids. by_computation.
      * exact Hend.
      * split; [exact Hone|exact Hperm].
    + vm_compute in Hend. discriminate Hend.
Defined.

(** ** The items are kept *)

(** C8: every drag-end state update preserves the multiset of items.  On
    the sortable-list and custom-overlay pages the list a drag end yields
    is a permutation of the old list; on the Kanban board, in every state
    the page can reach, the columns together hold the same tasks after
    [handleDragEnd] as before.  And in every state these pages can reach,
    a drag end does yield such an update, whatever ids the event
    carries. *)
Theorem drag_end_preserves_items :
  (∀ items event items',
     SortableList.handleDragEnd items event = Ok items' → items' ≡ₚ items)
  ∧ (∀ st event st',
       CustomOverlay.handleDragEnd st event = Ok st' →
       CustomOverlay.items st' ≡ₚ CustomOverlay.items st)
  ∧ (∀ st event st',
       kanban_reachable st →
       Kanban.handleDragEnd st event = Ok st' →
       contents (Kanban.tasks st') ≡ₚ contents (Kanban.tasks st))
  ∧ (∀ items event,
       sortable_reachable items →
       ∃ items', SortableList.handleDragEnd items event = Ok items')
  ∧ (∀ st event,
       overlay_reachable st →
       ∃ st', CustomOverlay.handleDragEnd st event = Ok st')
  ∧ (∀ st event,
       kanban_reachable st →
       ∃ st', Kanban.handleDragEnd st event = Ok st').
Proof.
  split_and!.
  - apply sortable_handleDragEnd_perm.
  - intros st event st' Hend. by apply (overlay_handleDragEnd_Ok st event).
  - intros st event st' Hreach Hend.
    destruct (kanban_reachable_invariant st Hreach) as (Huniq & Hapart & _).
    by destruct (handleDragEnd_invariant st event st' Huniq Hapart Hend)
      as (_ & _ & _ & Hperm).
  - intros items event Hreach%sortable_reachable_perm.
    apply sortable_handleDragEnd_total.
    intros ->. by apply Permutation_length in Hreach.
  - intros st event Hreach%overlay_reachable_perm.
    apply overlay_handleDragEnd_total.
    intros Hnil. rewrite Hnil in Hreach.
    by apply Permutation_length in Hreach.
  - intros st event Hreach. by apply kanban_reachable_total.
Qed.

Lemma drag_end_preserves_items_witness :
  (∃ items', SortableList.handleDragEnd SortableList.initialItems
               (mkDragEnd "5" (Some "2")) = Ok items'
             ∧ items' ≡ₚ SortableList.initialItems)
  ∧ (∃ st', CustomOverlay.handleDragEnd CustomOverlay.initialState
              (mkDragEnd "file-1" (Some "file-4")) = Ok st'
            ∧ CustomOverlay.items st' ≡ₚ CustomOverlay.fileItems)
  ∧ (∃ st', Kanban.handleDragEnd Kanban.initialState
              (mkDragEnd "task-6" (Some "task-2")) = Ok st'
            ∧ contents (Kanban.tasks st') ≡ₚ contents Kanban.initialTasks).
Proof.
  destruct drag_end_preserves_items as (Hs & Ho & Hk & Hst & Hot & Hkt).
  split_and!.
  - destruct (Hst SortableList.initialItems (mkDragEnd "5" (Some "2")))
      as [items' Hend]; [apply rtc_refl|].
    exists items'. split; [exact Hend|]. exact (Hs _ _ _ Hend).
  - destruct (Hot CustomOverlay.initialState
                (mkDragEnd "file-1" (Some "file-4")))
      as [st' Hend]; [apply rtc_refl|].
    exists st'. split; [exact Hend|]. exact (Ho _ _ _ Hend).
  - destruct (Hkt Kanban.initialState (mkDragEnd "task-6" (Some "task-2")))
      as [st' Hend]; [apply rtc_refl|].
    exists st'. split; [exact Hend|].
    exact (Hk _ _ _ (rtc_refl _ _) Hend).
Defined.

(** ** Order after a drop on the sortable list *)

(** C5, as stated, fails when the dragged item starts above its target:
    dragging the first to-do onto the second leaves it after the second. *)
Lemma sortable_drop_downward_lands_after :
  ∃ items',
    SortableList.handleDragEnd SortableList.initialItems
      (mkDragEnd "1" (Some "2")) = Ok items'
    ∧ SortableList.id <$> items' = ["2"; "1"; "3"; "4"; "5"; "6"]
    ∧ ¬ precedes SortableList.id "1" "2" items'
    ∧ precedes SortableList.id "2" "1" items'.
Proof.
  eexists. split_and!; [by vm_compute|by vm_compute|..].
  - intros (i & j & Hi & Hj & Hlt).
    vm_compute in Hi, Hj. simplify_eq. lia.
  - exists 0%nat, 1%nat. split_and!; [by vm_compute..|lia].
Qed.

(** C5 (amended): when the active item A and the over item B are distinct
    items of the sortable list, [handleDragEnd] puts A on the position B
    had and shifts B by one place towards the position A had.  So A ends
    directly before B when it was dragged upwards (A was after B), and
    directly after B when it was dragged downwards; with unique
    identifiers, A precedes B afterwards exactly when A was after B. *)
Theorem sortable_drop_lands_on_target items a b i j A B :
  a ≠ b →
  position_of SortableList.id a items = Some i →
  position_of SortableList.id b items = Some j →
  items !! i = Some A → items !! j = Some B →
  ∃ items',
    SortableList.handleDragEnd items (mkDragEnd a (Some b)) = Ok items'
    ∧ items' !! j = Some A
    ∧ ((j < i)%nat → items' !! S j = Some B)
    ∧ ((i < j)%nat → items' !! (j - 1)%nat = Some B)
    ∧ (NoDup (SortableList.id <$> items) →
       precedes SortableList.id a b items' ↔ (j < i)%nat).
Proof.
  intros Hab Hi Hj HA HB.
  destruct (position_of_Some _ _ _ _ Hi) as (A' & HA' & HidA).
  destruct (position_of_Some _ _ _ _ Hj) as (B' & HB' & HidB).
  simplify_eq.
  assert (i ≠ j) as Hij by (intros ->; by simplify_eq).
  assert (j < length items)%nat as Hjlen by by eapply lookup_lt_Some.
  unfold SortableList.handleDragEnd. cbn [over active].
  rewrite bool_decide_eq_true_2 by done.
  unfold findIndex, SortableList.has_id.
  unfold position_of in Hi, Hj. rewrite Hi, Hj.
  rewrite (arrayMove_at _ _ _ _ HA Hjlen). simpl.
  eexists. split; [done|].
  destruct (landing_lookup items i j A B HA HB Hij) as (Hat & Hup & Hdown).
  split_and!; [done..|].
  intros Hnd.
  set (items' := take j (delete i items) ++ A :: drop j (delete i items))
    in *.
  assert (NoDup (SortableList.id <$> items')) as Hnd'.
  { enough (items' ≡ₚ items) as -> by done.
    unfold items'. rewrite insert_at_perm. by apply delete_perm. }
  pose proof (position_of_lookup SortableList.id items' j A Hnd' Hat) as HpA.
  split.
  - intros (pa & pb & Hpa & Hpb & Hlt).
    destruct (decide (j < i)%nat) as [|Hge]; [done|exfalso].
    assert (i < j)%nat as Hlt' by lia.
    pose proof (position_of_lookup SortableList.id items' _ B Hnd'
                  (Hdown Hlt')) as HpB.
    simplify_eq. lia.
  - intros Hlt. exists j, (S j). split_and!; [done| |lia].
    by apply (position_of_lookup SortableList.id items' _ B Hnd'), Hup.
Qed.

Lemma sortable_drop_lands_on_target_witness :
  ∃ items',
    SortableList.handleDragEnd SortableList.initialItems
      (mkDragEnd "4" (Some "2")) = Ok items'
    ∧ items' !! 1%nat
      = Some (SortableList.mkItem "4" "Explore dnd-kit library" true)
    ∧ items' !! 2%nat
      = Some (SortableList.mkItem "2" "Build a to-do app" false).
Proof.
  destruct (sortable_drop_lands_on_target SortableList.initialItems
              "4" "2" 3%nat 1%nat
              (SortableList.mkItem "4" "Explore dnd-kit library" true)
              (SortableList.mkItem "2" "Build a to-do app" false))
    as (items' & Hend & Hat & Hup & _); [done|reflexivity..|].
  exists items'. split_and!; [exact Hend|exact Hat|apply Hup; lia].
Defined.

(** ** Drops that move nothing *)

(** C10: without a drop target, or when the active id equals the over id,
    [handleDragEnd] leaves the state as it is, on the sortable list and on
    the Kanban board. *)
Theorem drag_end_without_move_keeps_state :
  (∀ items a,
     SortableList.handleDragEnd items (mkDragEnd a None) = Ok items
     ∧ SortableList.handleDragEnd items (mkDragEnd a (Some a)) = Ok items)
  ∧ (∀ st a,
       Kanban.handleDragEnd st (mkDragEnd a None) = Ok st
       ∧ Kanban.handleDragEnd st (mkDragEnd a (Some a)) = Ok st).
Proof.
  split.
  - intros items a. split; [done|].
    unfold SortableList.handleDragEnd. cbn [over active].
    by rewrite bool_decide_eq_false_2 by (intros Hne; by apply Hne).
  - intros st a. split; [done|].
    unfold Kanban.handleDragEnd. cbn [over active].
    by rewrite bool_decide_eq_true_2.
Qed.

(** ** The dragged item reference *)

(** The custom-overlay page clears [activeItem] on every drag end. *)
Lemma overlay_drag_end_clears_active_item st event st' :
  CustomOverlay.handleDragEnd st event = Ok st' →
  CustomOverlay.activeItem st' = None.
Proof. intros Hend. by apply (overlay_handleDragEnd_Ok st event). Qed.

(** The Kanban board clears [activeTask] only when it gets as far as
    updating the columns. *)
Lemma kanban_drag_end_clears_or_returns st event st' :
  Kanban.handleDragEnd st event = Ok st' →
  Kanban.activeTask st' = None ∨ st' = st.
Proof.
  unfold Kanban.handleDragEnd.
  destruct (over event) as [o|]; [|intros [= <-]; by right].
  case_bool_decide; [intros [= <-]; by right|].
  destruct (negb _); [intros [= <-]; by right|].
  intros Hb. apply bind_Ok in Hb as (b & _ & [= <-]). by left.
Qed.

(** C2 fails on the Kanban board: after [handleDragStart] has stored the
    dragged task, a drag that ends without a drop target, on the dragged
    task itself, or with an active id found in no column returns before
    [setActiveTask(null)], and [activeTask] stays set. *)
Theorem kanban_drag_end_leaves_active_task :
  let dragging := Kanban.handleDragStart Kanban.initialState "task-1" in
  Kanban.activeTask dragging
  = Some (Kanban.mkTask "task-1" "Research competitors" Kanban.High)
  ∧ Kanban.handleDragEnd dragging (mkDragEnd "task-1" None) = Ok dragging
  ∧ Kanban.handleDragEnd dragging (mkDragEnd "task-1" (Some "task-1"))
    = Ok dragging
  ∧ Kanban.handleDragEnd dragging (mkDragEnd "task-9" (Some "task-2"))
    = Ok dragging.
Proof. intros dragging. split_and!; by vm_compute. Qed.

(** ** Reset *)

(** C6: each reset action puts the hardcoded initial list or board back,
    whatever the state was, and doing it twice changes nothing more. *)
Theorem reset_restores_initial_state :
  (∀ st, Kanban.tasks (Kanban.resetBoard st) = Kanban.initialTasks
         ∧ Kanban.resetBoard (Kanban.resetBoard st) = Kanban.resetBoard st)
  ∧ (∀ items,
       SortableList.resetList items = SortableList.initialItems
       ∧ SortableList.resetList (SortableList.resetList items)
         = SortableList.resetList items)
  ∧ (∀ st, CustomOverlay.items (CustomOverlay.resetItems st)
           = CustomOverlay.fileItems
           ∧ CustomOverlay.resetItems (CustomOverlay.resetItems st)
             = CustomOverlay.resetItems st)
  ∧ (∀ N (num : JsNumber N) (items : list (FreePositioning.PositionableItem N)),
       FreePositioning.resetPositions items = FreePositioning.initialItems
       ∧ FreePositioning.resetPositions (FreePositioning.resetPositions items)
         = FreePositioning.resetPositions items)
  ∧ (∀ N (num : JsNumber N)
       (codec : JsonCodec (list (FreePositioning.PositionableItem N)))
       (p : FreePositioning.Page N),
       FreePositioning.items (FreePositioning.onReset p)
       = FreePositioning.initialItems
       ∧ FreePositioning.onReset (FreePositioning.onReset p)
         = FreePositioning.onReset p).
Proof.
  split_and!; try done.
  intros N num codec p. split; [done|].
  unfold FreePositioning.onReset, FreePositioning.setItems,
    FreePositioning.save_effect. simpl.
  by rewrite insert_insert_eq.
Qed.

(** ** Moving an item between containers *)

(** C7: on the multiple-containers page, when the active id names no
    property of the state (as every item the page can show: it is not the
    name of a container, nor a name objects inherit), the container
    [findContainer] answers for it and the resolved destination container
    exist and the two differ, then the source array holds the active id
    and [handleDragEnd] removes it from the source array at its first
    index and appends it to the end of the destination array.  When the
    two containers are equal, or one of them is not resolved (undefined
    or the empty name), or there is no drop target, the state is
    unchanged. *)
Theorem containers_drop_moves_item :
  (∀ items a o ac dst,
     js_in a items = false →
     MultipleContainers.findContainer items a = Some ac → ac ≠ "" →
     destination items o ≠ "" → ac ≠ destination items o →
     get items (destination items o) = Some dst →
     ∃ src i,
       get items ac = Some src
       ∧ src !! i = Some a ∧ (∀ j, (j < i)%nat → src !! j ≠ Some a)
       ∧ indexOf a src = Z.of_nat i
       ∧ MultipleContainers.handleDragEnd items (mkDragEnd a (Some o))
         = Ok (set (set items ac (delete i src))
                   (destination items o) (dst ++ [a])))
  ∧ (∀ items a,
       containers_reachable items → a ∈ contents items →
       js_in a items = false)
  ∧ (∀ items a o,
       MultipleContainers.findContainer items a = None
       ∨ MultipleContainers.findContainer items a = Some ""
       ∨ destination items o = ""
       ∨ MultipleContainers.findContainer items a
         = Some (destination items o) →
       MultipleContainers.handleDragEnd items (mkDragEnd a (Some o))
       = Ok items)
  ∧ (∀ items a,
       MultipleContainers.handleDragEnd items (mkDragEnd a None) = Ok items).
Proof.
  split_and!.
  - intros items a o ac dst Hin Hac Hne Hdne Hdiff Hdst.
    destruct (findContainer_Some items a ac Hac)
      as [[_ Hown]|(_ & src & Hsrc & Ha)]; [congruence|].
    destruct (indexOf_elem a src Ha) as (i & Hidx & Hi & Hmin).
    exists src, i. split_and!; [done..|].
    rewrite handleDragEnd_over, Hac.
    rewrite !bool_decide_eq_false_2 by done. simpl.
    unfold MultipleContainers.moveItem. rewrite Hsrc, Hdst. simpl.
    by rewrite Hidx, (proj1 (splice_remove_at _ _ _ Hi)).
  - apply containers_reachable_item_names.
  - intros items a o Hcases. rewrite handleDragEnd_over.
    destruct (MultipleContainers.findContainer items a) as [ac|]; [|done].
    destruct Hcases as [?|[[= ->]|[Hd|[= ->]]]]; try done.
    + rewrite Hd. by destruct (bool_decide (ac = "")).
    + rewrite (bool_decide_eq_true_2 (_ = destination items o)) by done.
      by rewrite orb_true_r.
  - done.
Qed.

Lemma containers_drop_moves_item_witness :
  MultipleContainers.handleDragEnd MultipleContainers.initialItems
    (mkDragEnd "item-2" (Some "Container C"))
  = Ok [ ("Container A", ["item-1"]); ("Container B", ["item-3"]);
         ("Container C", ["item-4"; "item-5"; "item-2"]); ("root", []) ]
  ∧ MultipleContainers.handleDragEnd MultipleContainers.initialItems
      (mkDragEnd "item-2" (Some "Container A"))
    = Ok MultipleContainers.initialItems.
Proof.
  destruct containers_drop_moves_item as (Hmove & Hnames & Hstay & _). split.
  - destruct (Hmove MultipleContainers.initialItems "item-2" "Container C"
                "Container A" ["item-4"; "item-5"])
      as (src & i & Hsrc & Hi & _ & Hidx & Hend);
      [apply Hnames; [apply rtc_refl|by_computation]
      |reflexivity|discriminate|discriminate|discriminate|reflexivity|].
    injection Hsrc as <-.
    assert (i = 1%nat) as ->
      by (change (indexOf _ _) with 1 in Hidx; lia).
    exact Hend.
  - apply Hstay. right. right. right. reflexivity.
Defined.

(** ** Free positioning: the drag handler *)

(** C9: [handleDragEnd] on the free-positioning page keeps the length and
    the order of the list, the id and the label of every item, and every
    item whose id differs from the active id; an item whose id equals the
    active id gets the delta added to its coordinates. *)
Theorem free_drag_end_moves_only_active {N} `{JsNumber N}
    (items : list (FreePositioning.PositionableItem N))
    (event : FreePositioning.DragEnd N) :
  let items' := FreePositioning.handleDragEnd items event in
  length items' = length items
  ∧ FreePositioning.id <$> items' = FreePositioning.id <$> items
  ∧ FreePositioning.label <$> items' = FreePositioning.label <$> items
  ∧ ∀ k item,
      items !! k = Some item →
      ∃ item',
        items' !! k = Some item'
        ∧ FreePositioning.id item' = FreePositioning.id item
        ∧ FreePositioning.label item' = FreePositioning.label item
        ∧ if bool_decide (FreePositioning.id item
                          = FreePositioning.activeId event)
          then FreePositioning.position item'
               = FreePositioning.mkPosition
                   (num_add (FreePositioning.x (FreePositioning.position item))
                            (FreePositioning.x (FreePositioning.delta event)))
                   (num_add (FreePositioning.y (FreePositioning.position item))
                            (FreePositioning.y (FreePositioning.delta event)))
          else item' = item.
Proof.
  intros items'. unfold items', FreePositioning.handleDragEnd.
  assert (∀ item, FreePositioning.id (FreePositioning.moveBy event item)
                  = FreePositioning.id item) as Hid.
  { intros item. unfold FreePositioning.moveBy. by case_bool_decide. }
  assert (∀ item, FreePositioning.label (FreePositioning.moveBy event item)
                  = FreePositioning.label item) as Hlabel.
  { intros item. unfold FreePositioning.moveBy. by case_bool_decide. }
  split_and!.
  - apply length_fmap.
  - rewrite <-list_fmap_compose. apply list_fmap_ext. intros ? item _. apply Hid.
  - rewrite <-list_fmap_compose. apply list_fmap_ext.
    intros ? item _. apply Hlabel.
  - intros k item Hk. exists (FreePositioning.moveBy event item).
    split_and!; [by rewrite list_lookup_fmap, Hk|done..|].
    unfold FreePositioning.moveBy. by case_bool_decide.
Qed.

(** ** Free positioning: local storage *)

(** C3, as stated, fails for the empty string: it is no JSON text, yet the
    guard [if (savedItems)] treats it like an absent key, so nothing is
    parsed and nothing is logged. *)
Lemma empty_saved_string_is_not_logged :
  let storage : gmap string string :=
    {[ FreePositioning.storage_key := "" ]} in
  storage !! FreePositioning.storage_key = Some ""
  ∧ JSON_parse (V := list (FreePositioning.PositionableItem Z)) "" = None
  ∧ FreePositioning.console (FreePositioning.mount storage) = []
  ∧ FreePositioning.items (FreePositioning.mount storage)
    = FreePositioning.initialItems.
Proof.
  intros storage.
  assert (storage !! FreePositioning.storage_key = Some "") as Hkey
    by apply lookup_singleton_eq.
  split_and!; [done|done|..];
    by rewrite (mount_absent storage (or_intror Hkey)).
Qed.

(** C3 (amended): when the string stored under the page's key is not
    empty and cannot be decoded, mounting logs the failure and the items
    remain the hardcoded initial list; an empty stored string is treated
    like an absent key (nothing logged, items remain the initial list);
    and an undecodable non-empty string is the only thing mounting ever
    logs. *)
Theorem load_failure_is_logged {N} `{JsNumber N}
    `{JsonCodec (list (FreePositioning.PositionableItem N))}
    (storage : gmap string string) :
  (∀ s, storage !! FreePositioning.storage_key = Some s → s ≠ "" →
        JSON_parse s = None →
        FreePositioning.console (FreePositioning.mount storage)
        = ["Failed to parse saved items:"]
        ∧ FreePositioning.items (FreePositioning.mount storage)
          = FreePositioning.initialItems)
  ∧ (storage !! FreePositioning.storage_key = Some "" →
     FreePositioning.console (FreePositioning.mount storage) = []
     ∧ FreePositioning.items (FreePositioning.mount storage)
       = FreePositioning.initialItems)
  ∧ (FreePositioning.console (FreePositioning.mount storage) ≠ [] →
     ∃ s, storage !! FreePositioning.storage_key = Some s ∧ s ≠ ""
          ∧ JSON_parse s = None).
Proof.
  split_and!.
  - intros s Hkey Hne Hparse.
    by rewrite (mount_undecodable storage s Hkey Hne Hparse).
  - intros Hkey. by rewrite (mount_absent storage (or_intror Hkey)).
  - intros Hlog.
    destruct (mount_cases storage)
      as [Habs|[(s & Hkey & Hne & Hparse)|(s & parsed & Hkey & Hparse)]].
    + by rewrite (mount_absent storage Habs) in Hlog.
    + by exists s.
    + by rewrite (mount_decoded storage s parsed Hkey Hparse) in Hlog.
Qed.

Lemma load_failure_is_logged_witness :
  let storage : gmap string string :=
    {[ FreePositioning.storage_key := "{oops" ]} in
  FreePositioning.console (FreePositioning.mount storage)
  = ["Failed to parse saved items:"]
  ∧ FreePositioning.items (FreePositioning.mount storage)
    = FreePositioning.initialItems.
Proof.
  intros storage.
  apply (proj1 (load_failure_is_logged storage) "{oops").
  - apply lookup_singleton_eq.
  - discriminate.
  - reflexivity.
Defined.

(** On every storage whose text under the key is not an unrenderable
    value, mounting yields the page [mount] describes. *)
Lemma mount_and_render_mount {N} `{JsNumber N}
    `{JsonReader (list (FreePositioning.PositionableItem N))}
    (storage : gmap string string) :
  (∀ s, storage !! FreePositioning.storage_key = Some s →
        JSON_read s ≠ Unrenderable) →
  mount_and_render storage = Ok (FreePositioning.mount storage).
Proof.
  intros Hrenders.
  unfold mount_and_render, FreePositioning.mount, FreePositioning.load_effect.
  cbn [FreePositioning.localStorage FreePositioning.console].
  destruct (storage !! FreePositioning.storage_key) as [s|] eqn:Hkey; [|done].
  specialize (Hrenders s eq_refl).
  case_bool_decide; [|done].
  unfold JSON_parse, reader_codec. by destruct (JSON_read s).
Qed.

(** C4: the free-positioning page keeps its items under the one key
    ["free-positioning-items"].  Mounting reads that key and nothing
    else.  When the value found there decodes to an array of position
    records, the page shows the decoded array; when it decodes to a value
    that is no such array, the page takes that value for its state all
    the same and the render fails; when the key is absent, or holds the
    empty string or a text that does not decode, the page shows the
    initial list.  After a successful mount and after every change
    of the items (a drag end, a reset, any [setItems]) the key holds the
    JSON text of the current items and no other key has been touched. *)
Theorem positions_persist_under_fixed_key {N} `{JsNumber N}
    `{JsonReader (list (FreePositioning.PositionableItem N))}
    (storage : gmap string string) :
  FreePositioning.storage_key = "free-positioning-items"
  ∧ (∀ s parsed,
       storage !! FreePositioning.storage_key = Some s →
       JSON_read s = Items parsed →
       mount_and_render storage
       = Ok (FreePositioning.mkPage parsed
               (<[FreePositioning.storage_key := JSON_write parsed]> storage)
               []))
  ∧ (∀ s,
       storage !! FreePositioning.storage_key = Some s →
       JSON_read s = Unrenderable →
       mount_and_render storage = TypeError)
  ∧ (storage !! FreePositioning.storage_key = None
     ∨ storage !! FreePositioning.storage_key = Some "" →
     mount_and_render storage
     = Ok (FreePositioning.mkPage FreePositioning.initialItems
             (<[FreePositioning.storage_key :=
                  JSON_write FreePositioning.initialItems]> storage)
             []))
  ∧ (∀ s,
       storage !! FreePositioning.storage_key = Some s → s ≠ "" →
       JSON_read s = Throws →
       mount_and_render storage
       = Ok (FreePositioning.mkPage FreePositioning.initialItems
               (<[FreePositioning.storage_key :=
                    JSON_write FreePositioning.initialItems]> storage)
               ["Failed to parse saved items:"]))
  ∧ (∀ storage',
       storage' !! FreePositioning.storage_key
       = storage !! FreePositioning.storage_key →
       match mount_and_render storage', mount_and_render storage with
       | Ok p', Ok p =>
           FreePositioning.items p' = FreePositioning.items p
           ∧ FreePositioning.console p' = FreePositioning.console p
       | TypeError, TypeError => True
       | _, _ => False
       end)
  ∧ (∀ p,
       mount_and_render storage = Ok p →
       FreePositioning.localStorage p
       = <[FreePositioning.storage_key :=
             JSON_write (FreePositioning.items p)]> storage)
  ∧ (∀ p new,
       FreePositioning.items (FreePositioning.setItems p new) = new
       ∧ FreePositioning.localStorage (FreePositioning.setItems p new)
         = <[FreePositioning.storage_key := JSON_write new]>
             (FreePositioning.localStorage p))
  ∧ (∀ p event,
       FreePositioning.localStorage (FreePositioning.onDragEnd p event)
       = <[FreePositioning.storage_key :=
             JSON_write (FreePositioning.handleDragEnd
                           (FreePositioning.items p) event)]>
           (FreePositioning.localStorage p))
  ∧ (∀ p,
       FreePositioning.localStorage (FreePositioning.onReset p)
       = <[FreePositioning.storage_key :=
             JSON_write FreePositioning.initialItems]>
           (FreePositioning.localStorage p)).
Proof.
  split_and!; try done.
  - intros s parsed Hkey Hread. unfold mount_and_render.
    rewrite Hkey, Hread.
    assert (s ≠ "") as Hne.
    { intros ->. by rewrite JSON_read_empty in Hread. }
    rewrite bool_decide_eq_true_2 by done.
    unfold FreePositioning.setItems, FreePositioning.save_effect. simpl.
    by rewrite insert_insert_eq.
  - intros s Hkey Hread. unfold mount_and_render.
    rewrite Hkey, Hread.
    assert (s ≠ "") as Hne.
    { intros ->. by rewrite JSON_read_empty in Hread. }
    by rewrite bool_decide_eq_true_2 by done.
  - intros [Hkey|Hkey]; unfold mount_and_render; by rewrite Hkey.
  - intros s Hkey Hne Hread. unfold mount_and_render.
    rewrite Hkey, Hread. by rewrite bool_decide_eq_true_2 by done.
  - intros storage' Hsame. unfold mount_and_render. rewrite Hsame.
    destruct (storage !! FreePositioning.storage_key) as [s|]; [|done].
    case_bool_decide; [|done]. by destruct (JSON_read s).
  - intros p. unfold mount_and_render.
    destruct (storage !! FreePositioning.storage_key) as [s|];
      [|by intros [= <-]].
    case_bool_decide; [|by intros [= <-]].
    destruct (JSON_read s) as [|parsed|]; [by intros [= <-]| |done].
    intros [= <-].
    unfold FreePositioning.setItems, FreePositioning.save_effect. simpl.
    by rewrite insert_insert_eq.
Qed.

(** A reload after a drag: the key holds the text written for the moved
    items, and mounting shows them at their new positions; a stored
    [null] is parsed without complaint and the page fails to render. *)
Lemma positions_persist_under_fixed_key_witness :
  let moved : list (FreePositioning.PositionableItem Z) :=
    [ FreePositioning.mkItem "item-1" "Item 1"
        (FreePositioning.mkPosition 55 43);
      FreePositioning.mkItem "item-2" "Item 2"
        (FreePositioning.mkPosition 200 100);
      FreePositioning.mkItem "item-3" "Item 3"
        (FreePositioning.mkPosition 350 150) ] in
  let storage : gmap string string :=
    {[ FreePositioning.storage_key := JSON_write moved ]} in
  let broken : gmap string string :=
    {[ FreePositioning.storage_key := "null" ]} in
  FreePositioning.localStorage
    (FreePositioning.onDragEnd
       (FreePositioning.mount (∅ : gmap string string))
       (FreePositioning.mkDragEnd "item-1"
          (FreePositioning.mkPosition 5 (-7))))
  = storage
  ∧ mount_and_render storage
    = Ok (FreePositioning.mkPage moved
            (<[FreePositioning.storage_key := JSON_write moved]> storage) [])
  ∧ mount_and_render (N := Z) broken = TypeError.
Proof.
  intros moved storage broken. split_and!.
  - destruct (positions_persist_under_fixed_key (N := Z)
                (∅ : gmap string string))
      as (_ & _ & _ & _ & _ & _ & _ & _ & Hdrag & _).
    rewrite Hdrag.
    rewrite (mount_absent ∅ (or_introl (lookup_empty _))).
    cbn [FreePositioning.localStorage FreePositioning.items].
    rewrite insert_insert_eq. apply insert_empty.
  - destruct (positions_persist_under_fixed_key storage) as (_ & Hread & _).
    apply (Hread (JSON_write moved)).
    + apply lookup_singleton_eq.
    + reflexivity.
  - destruct (positions_persist_under_fixed_key (N := Z) broken)
      as (_ & _ & Hfails & _).
    apply (Hfails "null").
    + apply lookup_singleton_eq.
    + reflexivity.
Defined.

(** * Further properties of the pages *)

(** ** Kanban board: finding a task's column *)

Lemma get_elem_NoDup {V} (o : obj V) k v :
  NoDup (keys o) → (k, v) ∈ o → get o k = Some v.
Proof.
  induction o as [|[k' v'] o IH]; simpl.
  - by intros _ ?%elem_of_nil.
  - intros [Hk' Hnd]%NoDup_cons [[= -> ->]|Hin]%elem_of_cons.
    + by rewrite decide_True.
    + rewrite decide_False; [by apply IH|].
      intros ->. apply Hk'. apply list_elem_of_fmap. by exists (k, v).
Qed.

Lemma contents_elem {A} (o : obj (list A)) x :
  x ∈ contents o → ∃ k l, (k, l) ∈ o ∧ x ∈ l.
Proof.
  induction o as [|[k l] o IH].
  - by intros ?%elem_of_nil.
  - rewrite contents_cons. intros [Hx|Hx]%elem_of_app.
    + exists k, l. split; [by left|done].
    + destruct (IH Hx) as (k' & l' & Hin & Hx'). exists k', l'.
      split; [by right|done].
Qed.

Lemma column_has_true b x c :
  Kanban.column_has b x c = true ↔ appears_in Kanban.id b c x.
Proof.
  unfold Kanban.column_has, appears_in. destruct (get b c) as [column|].
  - rewrite some_true. split.
    + intros (t & Ht & Hid%has_id_true). exists column. split; [done|].
      apply list_elem_of_fmap. by exists t.
    + intros (l & [= <-] & (t & -> & Ht)%list_elem_of_fmap).
      exists t. split; [done|]. by apply has_id_true.
  - split; [done|]. by intros (l & ? & _).
Qed.

(** X1: [findColumnOfTask] answers with a column that holds a task of
    that id; on an object (no key twice) it answers [undefined] exactly
    when no column holds one; and when ids sit in at most one column it
    answers with the column that holds the id. *)
Theorem findColumnOfTask_spec b x :
  (∀ c, Kanban.findColumnOfTask b x = Some c → appears_in Kanban.id b c x)
  ∧ (NoDup (keys b) →
     Kanban.findColumnOfTask b x = None ↔ x ∉ all_ids Kanban.id b)
  ∧ (∀ c, at_most_one_container Kanban.id b → appears_in Kanban.id b c x →
          Kanban.findColumnOfTask b x = Some c).
Proof.
  split_and!.
  - intros c [_ Hhas]%find_Some. by apply column_has_true.
  - intros Hnd. split.
    + intros Hnone (t & -> & Ht)%list_elem_of_fmap.
      destruct (contents_elem b t Ht) as (k & l & Hin & Htl).
      assert (Kanban.column_has b (Kanban.id t) k = false) as Hfalse.
      { apply (find_None _ _ Hnone). apply list_elem_of_fmap.
        by exists (k, l). }
      assert (Kanban.column_has b (Kanban.id t) k = true) as Htrue.
      { apply column_has_true. exists l.
        split; [by apply get_elem_NoDup|].
        apply list_elem_of_fmap. by exists t. }
      congruence.
    + intros Hnot.
      destruct (Kanban.findColumnOfTask b x) as [c|] eqn:Hc; [|done].
      destruct Hnot. by eapply findColumnOfTask_id.
  - intros c Hone Hheld.
    destruct (Kanban.findColumnOfTask b x) as [c'|] eqn:Hc'.
    + f_equal. apply (Hone x); [|done].
      apply find_Some in Hc' as [_ Hhas]. by apply column_has_true.
    + assert (Kanban.column_has b x c = false) as Hfalse.
      { apply (find_None _ _ Hc').
        destruct Hheld as (l & Hg & _). by eapply get_Some_key. }
      apply column_has_true in Hheld. congruence.
Qed.

Lemma findColumnOfTask_spec_witness :
  Kanban.findColumnOfTask Kanban.initialTasks "task-5" = Some "in-progress"
  ∧ (Kanban.findColumnOfTask Kanban.initialTasks "to-do" = None
     ↔ "to-do" ∉ all_ids Kanban.id Kanban.initialTasks).
Proof.
  destruct (findColumnOfTask_spec Kanban.initialTasks "task-5")
    as (_ & _ & Hfound).
  destruct (findColumnOfTask_spec Kanban.initialTasks "to-do")
    as (_ & Hnone & _).
  split.
  - apply Hfound.
    + apply unique_ids_at_most_one. unfold unique_ids. by_computation.
    + exists [ Kanban.mkTask "task-4" "Design landing page" Kanban.High;
               Kanban.mkTask "task-5" "Implement drag and drop" Kanban.Medium ].
      split; [reflexivity|]. by_computation.
  - apply Hnone. by_computation.
Defined.

(** ** Kanban board: what a drop does, case by case *)

Section kanban_cases.
Import Kanban.
Implicit Types (b : Board) (st : State).




Lemma moveTask_unresolved b a o ac oc :
  ac ≠ "" → truthy oc = false → moveTask a o ac oc b = Ok b.
Proof.
  intros Hac Hoc. unfold moveTask. rewrite Hoc. cbn [andb].
  rewrite bool_decide_eq_false_2; [done|].
  intros <-. simpl in Hoc. by rewrite bool_decide_eq_false_2 in Hoc.
Qed.
End kanban_cases.





(** X4: a drop whose over id is the id of no task moves nothing; in
    particular, on a board whose task ids differ from the column names, a
    task dropped on a column itself (the branch commented "It's a column,
    add at the end" is never reached) stays where it is. *)
Theorem kanban_drop_on_non_task st a :
  (∀ o, Kanban.findColumnOfTask (Kanban.tasks st) o = None →
        ∃ st', Kanban.handleDragEnd st (mkDragEnd a (Some o)) = Ok st'
               ∧ Kanban.tasks st' = Kanban.tasks st)
  ∧ (∀ o, ids_apart Kanban.id (Kanban.tasks st) →
          o ∈ keys (Kanban.tasks st) →
          ∃ st', Kanban.handleDragEnd st (mkDragEnd a (Some o)) = Ok st'
                 ∧ Kanban.tasks st' = Kanban.tasks st).
Proof.
  assert (∀ o, Kanban.findColumnOfTask (Kanban.tasks st) o = None →
            ∃ st', Kanban.handleDragEnd st (mkDragEnd a (Some o)) = Ok st'
                   ∧ Kanban.tasks st' = Kanban.tasks st) as Hnone.
  { intros o Ho. unfold Kanban.handleDragEnd. cbn [over active].
    case_bool_decide; [by eexists|].
    destruct (negb _); [by eexists|].
    unfold Kanban.moveTask. rewrite Ho. cbn [truthy andb].
    rewrite (bool_decide_eq_false_2 (Some _ = None)) by done.
    by eexists. }
  split; [exact Hnone|].
  intros o Hapart Ho. apply Hnone.
  destruct (Kanban.findColumnOfTask (Kanban.tasks st) o) as [c|] eqn:Hc;
    [|done].
  destruct (Hapart o); [by eapply findColumnOfTask_id|done].
Qed.

Lemma kanban_drop_on_non_task_witness :
  ∃ st', Kanban.handleDragEnd Kanban.initialState
           (mkDragEnd "task-1" (Some "completed")) = Ok st'
         ∧ Kanban.tasks st' = Kanban.initialTasks.
Proof.
  apply (proj2 (kanban_drop_on_non_task Kanban.initialState "task-1")).
  - apply ids_apart_Forall. by_computation.
  - by_computation.
Defined.

(** X5: no drop adds, removes, renames or reorders a column. *)
Theorem kanban_drag_end_keeps_columns st event st' :
  Kanban.handleDragEnd st event = Ok st' →
  keys (Kanban.tasks st') = keys (Kanban.tasks st).
Proof.
  intros (o & _ & Hmoved)%handleDragEnd_moved. by eapply moved_keys.
Qed.

Lemma kanban_drag_end_keeps_columns_witness :
  match Kanban.handleDragEnd Kanban.initialState
          (mkDragEnd "task-4" (Some "task-7")) with
  | Ok st' => keys (Kanban.tasks st') = ["to-do"; "in-progress"; "completed"]
  | TypeError => False
  end.
Proof.
  destruct (Kanban.handleDragEnd _ _) as [st'|] eqn:Hend.
  - exact (kanban_drag_end_keeps_columns _ _ _ Hend).
  - vm_compute in Hend. discriminate Hend.
Defined.


(** ** Kanban board: reachable states *)

(** X7: whatever drags start and end (with any ids) and however often the
    board is reset, the board keeps its three columns, every task id
    occurs once, no task is named like a column, and the board holds
    exactly the seven initial tasks. *)
Theorem kanban_reachable_board st :
  kanban_reachable st →
  keys (Kanban.tasks st) = ["to-do"; "in-progress"; "completed"]
  ∧ unique_ids Kanban.id (Kanban.tasks st)
  ∧ ids_apart Kanban.id (Kanban.tasks st)
  ∧ contents (Kanban.tasks st) ≡ₚ contents Kanban.initialTasks.
Proof.
  intros Hreach.
  destruct (kanban_reachable_invariant st Hreach) as (Huniq & Hapart & Hkeys).
  destruct (kanban_reachable_one_container st Hreach) as [_ Hperm].
  by split_and!.
Qed.

Lemma kanban_reachable_board_witness :
  ∃ st,
    Kanban.handleDragEnd
      (Kanban.handleDragStart Kanban.initialState "task-1")
      (mkDragEnd "task-1" (Some "task-4")) = Ok st
    ∧ keys (Kanban.tasks st) = ["to-do"; "in-progress"; "completed"]
    ∧ unique_ids Kanban.id (Kanban.tasks st).
Proof.
  destruct (Kanban.handleDragEnd _ _) as [st|] eqn:Hend;
    [|vm_compute in Hend; discriminate Hend].
  exists st. split; [reflexivity|].
  destruct (kanban_reachable_board st) as (Hkeys & Huniq & _).
  - eapply rtc_l; [apply (kanban_drag_start _ "task-1")|].
    eapply rtc_l; [exact (kanban_drag_end _ _ _ Hend)|]. apply rtc_refl.
  - by split.
Defined.

(** X8: in every state the board can reach, [handleDragEnd] succeeds for
    every event, whatever ids it carries. *)
Theorem kanban_reachable_never_throws st event :
  kanban_reachable st → ∃ st', Kanban.handleDragEnd st event = Ok st'.
Proof.
  intros Hreach. destruct event as [a [o|]]; [|by eexists].
  destruct (Kanban.handleDragEnd st (mkDragEnd a (Some o))) as [st'|] eqn:Hend;
    [by eexists|exfalso].
  pose proof (handleDragEnd_total st (mkDragEnd a (Some o))) as Htotal.
  destruct (decide (o ∈ prototype_names)) as [Hproto|Hproto]; last first.
  { destruct Htotal as [st' Hok]; [by intros ? [= <-]|congruence]. }
  destruct (Kanban.findColumnOfTask (Kanban.tasks st) o) as [oc|] eqn:Hoc.
  - apply findColumnOfTask_id in Hoc.
    destruct (kanban_reachable_one_container st Hreach) as [_ Hperm].
    unfold all_ids in Hoc. rewrite Hperm in Hoc.
    revert Hproto Hoc. clear.
    assert (Forall (λ x, x ∉ prototype_names)
              (Kanban.id <$> contents Kanban.initialTasks)) as Hall
      by by_computation.
    intros Hproto Hoc. by eapply Forall_forall in Hall.
  - revert Hend. unfold Kanban.handleDragEnd. cbn [over active].
    case_bool_decide; [done|].
    destruct (truthy (Kanban.findColumnOfTask (Kanban.tasks st) a)) eqn:Hac;
      [|done].
    apply truthy_Some in Hac as (ac & -> & Hac). simpl.
    by rewrite moveTask_unresolved by (by rewrite ?Hoc).
Qed.

Lemma kanban_reachable_never_throws_witness :
  ∃ st', Kanban.handleDragEnd Kanban.initialState
           (mkDragEnd "task-1" (Some "toString")) = Ok st'.
Proof.
  apply kanban_reachable_never_throws. apply rtc_refl.
Defined.

(** ** Kanban board: the start of a drag *)

(** X9: [handleDragStart] never touches the columns.  When
    [findColumnOfTask] answers a column with a non-empty name for the
    active id, it stores the first task of that column that has this id;
    when [findColumnOfTask] answers undefined or the empty name, the
    state is unchanged. *)
Theorem kanban_drag_start_picks_task st a :
  Kanban.tasks (Kanban.handleDragStart st a) = Kanban.tasks st
  ∧ (Kanban.findColumnOfTask (Kanban.tasks st) a = None
     ∨ Kanban.findColumnOfTask (Kanban.tasks st) a = Some "" →
     Kanban.handleDragStart st a = st)
  ∧ (∀ c, Kanban.findColumnOfTask (Kanban.tasks st) a = Some c → c ≠ "" →
          ∃ column i t,
            get (Kanban.tasks st) c = Some column
            ∧ position_of Kanban.id a column = Some i
            ∧ column !! i = Some t ∧ Kanban.id t = a
            ∧ Kanban.activeTask (Kanban.handleDragStart st a) = Some t).
Proof.
  split_and!.
  - apply kanban_handleDragStart_tasks.
  - intros [Hnone|Hempty]; unfold Kanban.handleDragStart.
    + by rewrite Hnone.
    + by rewrite Hempty.
  - intros c Hc Hne.
    destruct (findColumnOfTask_Some _ _ _ Hc)
      as (column & i & t & Hcol & Ht & Hid & Hi).
    exists column, i, t. split_and!; [done..|].
    unfold Kanban.handleDragStart. rewrite Hc. simpl.
    rewrite (bool_decide_eq_false_2 (c = "")) by done. simpl.
    rewrite Hcol.
    assert (find (Kanban.has_id a) column = Some t) as ->; [|done].
    clear -Ht Hi. revert i Ht Hi.
    induction column as [|u column IH]; intros i Ht Hi; [done|].
    simpl in *. destruct (Kanban.has_id a u).
    + injection Hi as <-. simpl in Ht. by injection Ht as ->.
    + destruct (find_index _ column) as [i'|]; [|done].
      injection Hi as <-. simpl in Ht. by apply (IH i').
Qed.

Lemma kanban_drag_start_picks_task_witness :
  Kanban.activeTask (Kanban.handleDragStart Kanban.initialState "task-5")
  = Some (Kanban.mkTask "task-5" "Implement drag and drop" Kanban.Medium)
  ∧ Kanban.handleDragStart Kanban.initialState "task-9"
    = Kanban.initialState.
Proof.
  split.
  - destruct (kanban_drag_start_picks_task Kanban.initialState "task-5")
      as (_ & _ & Hfound).
    destruct (Hfound "in-progress")
      as (column & i & t & Hcol & Hi & Ht & _ & ->);
      [reflexivity|discriminate|].
    injection Hcol as <-. injection Hi as <-. injection Ht as <-. reflexivity.
  - apply (kanban_drag_start_picks_task Kanban.initialState "task-9").
    left. reflexivity.
Defined.

(** ** Kanban board: rendering a column *)

Lemma find_has_id_elem (column : list Kanban.Task) t :
  t ∈ column →
  ∃ u, find (Kanban.has_id (Kanban.id t)) column = Some u
       ∧ Kanban.id u = Kanban.id t ∧ u ∈ column.
Proof.
  intros Ht.
  destruct (find (Kanban.has_id (Kanban.id t)) column) as [u|] eqn:Hfind.
  - apply find_Some in Hfind as [Hu Hid%has_id_true]. by exists u.
  - pose proof (find_None _ _ Hfind t Ht) as Hfalse.
    unfold Kanban.has_id in Hfalse. by rewrite bool_decide_eq_true_2 in Hfalse.
Qed.

Lemma find_has_id_NoDup (column : list Kanban.Task) t :
  NoDup (Kanban.id <$> column) → t ∈ column →
  find (Kanban.has_id (Kanban.id t)) column = Some t.
Proof.
  intros Hnd Ht. destruct (find_has_id_elem column t Ht) as (u & -> & Hid & Hu).
  f_equal.
  apply list_elem_of_lookup in Ht as [i Hi], Hu as [j Hj].
  assert (j = i) as ->; [|congruence].
  apply (NoDup_lookup (Kanban.id <$> column) j i (Kanban.id t) Hnd).
  - by rewrite list_lookup_fmap, Hj, <-Hid.
  - by rewrite list_lookup_fmap, Hi.
Qed.

(** X10: for every column of the board the page renders one card per
    task of the column, and the lookup behind the non-null assertion
    [tasks[id].find(...)!] always finds a task of that column with the
    requested id; when the ids in the column are unique the cards are the
    column's tasks in their order. *)
Theorem kanban_column_cards b c column :
  get b c = Some column →
  ∃ cards,
    Kanban_column b c = Ok cards
    ∧ length cards = length column
    ∧ (∀ i t, column !! i = Some t →
         ∃ u, cards !! i = Some (Some u) ∧ Kanban.id u = Kanban.id t
              ∧ u ∈ column)
    ∧ (NoDup (Kanban.id <$> column) → cards = Some <$> column).
Proof.
  intros Hcol. unfold Kanban_column, KanbanColumn_cards. rewrite Hcol. simpl.
  eexists. split; [done|]. split_and!.
  - by rewrite !length_fmap.
  - intros i t Hi.
    destruct (find_has_id_elem column t) as (u & Hfind & Hid & Hu);
      [by eapply list_elem_of_lookup_2|].
    exists u. split_and!; [|done..].
    by rewrite !list_lookup_fmap, Hi; simpl; rewrite Hfind.
  - intros Hnd. rewrite <-list_fmap_compose.
    apply list_fmap_ext. intros i t Hi. simpl.
    apply find_has_id_NoDup; [done|]. by eapply list_elem_of_lookup_2.
Qed.

Lemma kanban_column_cards_witness :
  Kanban_column Kanban.initialTasks "completed"
  = Ok [ Some (Kanban.mkTask "task-6" "Team meeting" Kanban.High);
         Some (Kanban.mkTask "task-7" "Set up project repository"
                 Kanban.Medium) ].
Proof.
  destruct (kanban_column_cards Kanban.initialTasks "completed"
              [ Kanban.mkTask "task-6" "Team meeting" Kanban.High;
                Kanban.mkTask "task-7" "Set up project repository"
                  Kanban.Medium ])
    as (cards & -> & _ & _ & Hcards); [reflexivity|].
  rewrite Hcards; [reflexivity|]. by_computation.
Defined.

(** ** Multiple containers: finding an item's container *)

Lemma fmap_item_id (l : list string) : item_id <$> l = l.
Proof. apply list_fmap_id. Qed.

Lemma container_has_true items x c :
  MultipleContainers.container_has items x c = true
  ↔ appears_in item_id items c x.
Proof.
  unfold MultipleContainers.container_has, appears_in.
  destruct (get items c) as [l|].
  - rewrite includes_true. split.
    + intros Hx. exists l. by rewrite fmap_item_id.
    + intros (l' & [= <-] & Hx). by rewrite fmap_item_id in Hx.
  - split; [done|]. by intros (l & ? & _).
Qed.

(** X11: [findContainer] answers with the id itself whenever the id names
    a property of the object, without looking at any array; for any other
    id it answers with a container that includes the id, with [undefined]
    exactly when no container includes it (on an object, no key twice),
    and with the container holding the id when ids sit in at most one
    container. *)
Theorem findContainer_spec items x :
  (js_in x items = true → MultipleContainers.findContainer items x = Some x)
  ∧ (js_in x items = false →
     (∀ c, MultipleContainers.findContainer items x = Some c →
           appears_in item_id items c x)
     ∧ (NoDup (keys items) →
        MultipleContainers.findContainer items x = None
        ↔ x ∉ contents items)
     ∧ (∀ c, at_most_one_container item_id items →
             appears_in item_id items c x →
             MultipleContainers.findContainer items x = Some c)).
Proof.
  unfold MultipleContainers.findContainer. split.
  - by intros ->.
  - intros ->. split_and!.
    + intros c [_ Hhas]%find_Some. by apply container_has_true.
    + intros Hnd. split.
      * intros Hnone Hx.
        destruct (contents_elem items x Hx) as (k & l & Hin & Hxl).
        assert (MultipleContainers.container_has items x k = false) as Hfalse.
        { apply (find_None _ _ Hnone). apply list_elem_of_fmap.
          by exists (k, l). }
        assert (MultipleContainers.container_has items x k = true) as Htrue.
        { apply container_has_true. exists l.
          split; [by apply get_elem_NoDup|].
          by rewrite fmap_item_id. }
        congruence.
      * intros Hnot.
        destruct (find _ (keys items)) as [c|] eqn:Hc; [|done].
        apply find_Some in Hc as [_ Hhas%container_has_true].
        destruct Hnot. rewrite <-all_ids_item_id.
        by eapply appears_in_all_ids.
    + intros c Hone Hheld.
      destruct (find _ (keys items)) as [c'|] eqn:Hc'.
      * f_equal. apply (Hone x); [|done].
        apply find_Some in Hc' as [_ Hhas]. by apply container_has_true.
      * assert (MultipleContainers.container_has items x c = false) as Hfalse.
        { apply (find_None _ _ Hc').
          destruct Hheld as (l & Hg & _). by eapply get_Some_key. }
        apply container_has_true in Hheld. congruence.
Qed.

Lemma findContainer_spec_witness :
  MultipleContainers.findContainer MultipleContainers.initialItems "root"
  = Some "root"
  ∧ MultipleContainers.findContainer MultipleContainers.initialItems "item-3"
    = Some "Container B"
  ∧ (MultipleContainers.findContainer MultipleContainers.initialItems "item-9"
     = None ↔ "item-9" ∉ contents MultipleContainers.initialItems).
Proof.
  split_and!.
  - apply (proj1 (findContainer_spec MultipleContainers.initialItems "root")).
    reflexivity.
  - destruct (findContainer_spec MultipleContainers.initialItems "item-3")
      as [_ Hitem].
    destruct (Hitem eq_refl) as (_ & _ & Hfound). apply Hfound.
    + apply unique_ids_at_most_one. unfold unique_ids. by_computation.
    + exists ["item-3"]. split; [reflexivity|]. by_computation.
  - destruct (findContainer_spec MultipleContainers.initialItems "item-9")
      as [_ Hitem].
    destruct (Hitem eq_refl) as (_ & Hnone & _). apply Hnone. by_computation.
Defined.

(** ** Multiple containers: when a drop throws *)

(** X12: a drop throws exactly when source and destination are resolved to
    two different non-empty names and one of them is no property of the
    object holding an array (the updater then spreads [undefined] or an
    inherited function).  A drop onto a container of the page therefore
    never throws, unless the active id is a name every object inherits. *)
Theorem containers_drag_end_throws_iff items a o :
  (MultipleContainers.handleDragEnd items (mkDragEnd a (Some o)) = TypeError
   ↔ ∃ ac, MultipleContainers.findContainer items a = Some ac
           ∧ ac ≠ "" ∧ destination items o ≠ "" ∧ ac ≠ destination items o
           ∧ (get items ac = None ∨ get items (destination items o) = None))
  ∧ (o ∈ keys items → a ∉ prototype_names →
     ∃ items', MultipleContainers.handleDragEnd items (mkDragEnd a (Some o))
               = Ok items').
Proof.
  assert (MultipleContainers.handleDragEnd items (mkDragEnd a (Some o))
          = TypeError
          ↔ ∃ ac, MultipleContainers.findContainer items a = Some ac
                  ∧ ac ≠ "" ∧ destination items o ≠ ""
                  ∧ ac ≠ destination items o
                  ∧ (get items ac = None
                     ∨ get items (destination items o) = None)) as Hiff.
  { rewrite handleDragEnd_over. split.
    - destruct (MultipleContainers.findContainer items a) as [ac|]; [|done].
      destruct (_ || _) eqn:Hguard; [done|].
      apply orb_false_elim in Hguard as [[H1 H2]%orb_false_elim H3].
      apply bool_decide_eq_false in H1, H2, H3.
      unfold MultipleContainers.moveItem. intros Hthrow. exists ac.
      split_and!; [done..|].
      destruct (get items ac); [|by left].
      destruct (get items (destination items o)); [done|by right].
    - intros (ac & -> & H1 & H2 & H3 & Hnone).
      rewrite !bool_decide_eq_false_2 by done. simpl.
      unfold MultipleContainers.moveItem.
      destruct Hnone as [-> | ->]; [done|].
      by destruct (get items ac). }
  split; [exact Hiff|].
  intros Ho Ha.
  destruct (MultipleContainers.handleDragEnd items (mkDragEnd a (Some o)))
    as [items'|] eqn:Hend; [by eexists|exfalso].
  destruct (proj1 Hiff eq_refl) as (ac & Hac & Hac' & Hd & Hne & Hnone).
  assert (destination items o = o) as Hdest.
  { unfold destination, MultipleContainers.findContainer.
    rewrite js_in_own by done. by case_bool_decide. }
  rewrite Hdest in Hnone.
  destruct (get_key_is_Some _ _ Ho) as [dst Hdst].
  destruct Hnone as [Hnone|Hnone]; [|congruence].
  apply findContainer_Some in Hac as [[-> Hin]|[_ (l & Hl & _)]];
    [|congruence].
  unfold js_in in Hin. apply orb_true_iff in Hin as [Hin|Hin];
    apply bool_decide_eq_true in Hin; [|done].
  destruct (get_key_is_Some _ _ Hin). congruence.
Qed.

Lemma containers_drag_end_throws_iff_witness :
  ∃ items', MultipleContainers.handleDragEnd MultipleContainers.initialItems
              (mkDragEnd "item-4" (Some "root")) = Ok items'.
Proof.
  apply (proj2 (containers_drag_end_throws_iff
                  MultipleContainers.initialItems "item-4" "root")).
  - by_computation.
  - by_computation.
Defined.

(** X13: dropping on an item is dropping on the container that holds it:
    when the over id is no property name and [findContainer] finds its
    container, the drop has the same outcome as a drop on that container. *)
Theorem containers_drop_on_item_is_drop_on_its_container items a o c :
  js_in o items = false →
  MultipleContainers.findContainer items o = Some c → c ≠ "" →
  MultipleContainers.handleDragEnd items (mkDragEnd a (Some o))
  = MultipleContainers.handleDragEnd items (mkDragEnd a (Some c)).
Proof.
  intros Hin Hc Hne.
  assert (c ∈ keys items) as Hkey.
  { apply findContainer_Some in Hc as [[-> Hin']|[_ (l & Hl & _)]];
      [congruence|by eapply get_Some_key]. }
  assert (destination items o = c) as Ho.
  { unfold destination. rewrite Hc. by rewrite bool_decide_eq_false_2. }
  assert (destination items c = c) as Hc'.
  { unfold destination, MultipleContainers.findContainer.
    rewrite js_in_own by done. by case_bool_decide. }
  by rewrite !handleDragEnd_over, Ho, Hc'.
Qed.

Lemma containers_drop_on_item_is_drop_on_its_container_witness :
  MultipleContainers.handleDragEnd MultipleContainers.initialItems
    (mkDragEnd "item-1" (Some "item-5"))
  = MultipleContainers.handleDragEnd MultipleContainers.initialItems
      (mkDragEnd "item-1" (Some "Container C")).
Proof.
  apply containers_drop_on_item_is_drop_on_its_container;
    [reflexivity|reflexivity|discriminate].
Defined.

(** X14: a drop whose active id is not the name of a container keeps the
    container names in their order and the items of the page: whatever
    was in some container before is in some container afterwards, as
    often as before. *)
Theorem containers_drag_end_keeps_items items event items' :
  active event ∉ keys items →
  MultipleContainers.handleDragEnd items event = Ok items' →
  keys items' = keys items ∧ contents items' ≡ₚ contents items.
Proof.
  intros Hactive Hend.
  destruct (containers_handleDragEnd_invariant items event items'
              Hactive Hend) as [Hkeys Hperm].
  split; [exact Hkeys|exact Hperm].
Qed.

Lemma containers_drag_end_keeps_items_witness :
  match MultipleContainers.handleDragEnd MultipleContainers.initialItems
          (mkDragEnd "item-3" (Some "Container A")) with
  | Ok items' => contents items' ≡ₚ contents MultipleContainers.initialItems
  | TypeError => False
  end.
Proof.
  destruct (MultipleContainers.handleDragEnd _ _) as [items'|] eqn:Hend.
  - refine (proj2 (containers_drag_end_keeps_items _ _ items' _ Hend)).
    by_computation.
  - vm_compute in Hend. discriminate Hend.
Defined.

(** ** Multiple containers: there and back *)

Section object_updates.
Context {V : Type}.
Implicit Types (o : obj V) (k : string).




End object_updates.


Lemma delete_last {A} (l : list A) x : delete (length l) (l ++ [x]) = l.
Proof.
  induction l as [|y l IH]; simpl; [done|]. by rewrite IH.
Qed.




(** ** Multiple containers: reachable states *)

(** X16: as long as only items are dragged (the active id is never the
    name of a container), the page keeps its four containers, every item
    occurs once, in one container, no item is named like a container, and
    the containers hold exactly the five initial items. *)
Theorem containers_reachable_items items :
  containers_reachable items →
  keys items = ["Container A"; "Container B"; "Container C"; "root"]
  ∧ unique_ids item_id items ∧ at_most_one_container item_id items
  ∧ ids_apart item_id items
  ∧ contents items ≡ₚ ["item-1"; "item-2"; "item-3"; "item-4"; "item-5"].
Proof.
  intros Hreach.
  destruct (containers_reachable_invariant items Hreach)
    as (Huniq & Hapart & Hkeys).
  destruct (containers_reachable_one_container items Hreach) as [Hone Hperm].
  by split_and!.
Qed.

Lemma containers_reachable_items_witness :
  ∃ items,
    MultipleContainers.handleDragEnd MultipleContainers.initialItems
      (mkDragEnd "item-5" (Some "Container B")) = Ok items
    ∧ contents items ≡ₚ ["item-1"; "item-2"; "item-3"; "item-4"; "item-5"].
Proof.
  destruct (MultipleContainers.handleDragEnd _ _) as [items|] eqn:Hend;
    [|vm_compute in Hend; discriminate Hend].
  exists items. split; [reflexivity|].
  apply (containers_reachable_items items).
  assert ("item-5" ∉ keys MultipleContainers.initialItems) as Hactive
    by by_computation.
  eapply rtc_l; [|apply rtc_refl].
  exact (containers_drag_end MultipleContainers.initialItems
           (mkDragEnd "item-5" (Some "Container B")) items Hactive Hend).
Defined.

(** ** Free positioning: how drags compose *)

Section free_positioning_facts.
Import FreePositioning.
Context {N : Type} `{JsNumber N}.
Implicit Types (items : list (PositionableItem N)) (event : DragEnd N).

Lemma moveBy_id event item : id (moveBy event item) = id item.
Proof. unfold moveBy. by case_bool_decide. Qed.

Lemma moveBy_other event item :
  id item ≠ activeId event → moveBy event item = item.
Proof. intros Hne. unfold moveBy. by rewrite bool_decide_eq_false_2. Qed.

Lemma moveBy_comm e1 e2 item :
  activeId e1 ≠ activeId e2 →
  moveBy e2 (moveBy e1 item) = moveBy e1 (moveBy e2 item).
Proof.
  intros Hne.
  destruct (decide (id item = activeId e1)) as [H1|H1].
  - rewrite (moveBy_other e2 item) by congruence.
    apply moveBy_other. rewrite moveBy_id. congruence.
  - rewrite (moveBy_other e1 item) by done.
    symmetry. apply moveBy_other. by rewrite moveBy_id.
Qed.
End free_positioning_facts.

(** X17: drags of two different items can be applied in either order:
    the resulting list is the same. *)
Theorem free_drags_of_different_items_commute {N} `{JsNumber N}
    (items : list (FreePositioning.PositionableItem N))
    (e1 e2 : FreePositioning.DragEnd N) :
  FreePositioning.activeId e1 ≠ FreePositioning.activeId e2 →
  FreePositioning.handleDragEnd (FreePositioning.handleDragEnd items e1) e2
  = FreePositioning.handleDragEnd (FreePositioning.handleDragEnd items e2) e1.
Proof.
  intros Hne. unfold FreePositioning.handleDragEnd.
  rewrite <-!list_fmap_compose. apply list_fmap_ext.
  intros i item _. simpl. by apply moveBy_comm.
Qed.

Lemma free_drags_of_different_items_commute_witness :
  let e1 := FreePositioning.mkDragEnd "item-1" (FreePositioning.mkPosition 5 7) in
  let e2 := FreePositioning.mkDragEnd "item-3"
              (FreePositioning.mkPosition (-20) 1) in
  FreePositioning.handleDragEnd
    (FreePositioning.handleDragEnd FreePositioning.initialItems e1) e2
  = FreePositioning.handleDragEnd
      (FreePositioning.handleDragEnd FreePositioning.initialItems e2) e1.
Proof.
  intros e1 e2.
  apply (free_drags_of_different_items_commute (N := Z)). discriminate.
Defined.

(** X18: a drag whose active id is the id of no item changes nothing. *)
Theorem free_drag_of_unknown_item_is_identity {N} `{JsNumber N}
    (items : list (FreePositioning.PositionableItem N))
    (event : FreePositioning.DragEnd N) :
  FreePositioning.activeId event ∉ FreePositioning.id <$> items →
  FreePositioning.handleDragEnd items event = items.
Proof.
  intros Hnot. unfold FreePositioning.handleDragEnd.
  rewrite <-(list_fmap_id items) at 2. apply list_fmap_ext.
  intros i item Hi. simpl. apply moveBy_other.
  intros Heq. apply Hnot. rewrite <-Heq.
  apply list_elem_of_fmap. exists item. split; [done|].
  by eapply list_elem_of_lookup_2.
Qed.

Lemma free_drag_of_unknown_item_is_identity_witness :
  FreePositioning.handleDragEnd FreePositioning.initialItems
    (FreePositioning.mkDragEnd "item-7" (FreePositioning.mkPosition 5 7))
  = (FreePositioning.initialItems
       : list (FreePositioning.PositionableItem Z)).
Proof.
  apply free_drag_of_unknown_item_is_identity. by_computation.
Defined.

(** ** Free positioning: reloading the page *)

(** X19: what the page has written is what a reload shows.  When the
    key holds the JSON text of the current items (as it does after every
    drag and every reset) and these items survive a round trip through
    the codec, mounting again from the page's local storage yields the
    same items, logs nothing and leaves the storage as it is. *)
Theorem free_reload_restores_items {N} `{JsNumber N}
    `{JsonCodec (list (FreePositioning.PositionableItem N))}
    (p : FreePositioning.Page N) :
  FreePositioning.localStorage p !! FreePositioning.storage_key
  = Some (JSON_stringify (FreePositioning.items p)) →
  JSON_parse (JSON_stringify (FreePositioning.items p))
  = Some (FreePositioning.items p) →
  FreePositioning.mount (FreePositioning.localStorage p)
  = FreePositioning.mkPage (FreePositioning.items p)
      (FreePositioning.localStorage p) [].
Proof.
  intros Hsaved Hround.
  rewrite (mount_decoded (FreePositioning.localStorage p)
             (JSON_stringify (FreePositioning.items p))
             (FreePositioning.items p) Hsaved Hround).
  f_equal. by apply insert_id.
Qed.

(** A drag of the first item, then a reload: the moved items come
    back from the text the drag has written. *)
Lemma free_reload_restores_items_witness :
  let p := FreePositioning.onDragEnd
             (FreePositioning.mount (∅ : gmap string string))
             (FreePositioning.mkDragEnd "item-1"
                (FreePositioning.mkPosition 5 (-7))) in
  FreePositioning.items p
  = [ FreePositioning.mkItem "item-1" "Item 1"
        (FreePositioning.mkPosition 55 43);
      FreePositioning.mkItem "item-2" "Item 2"
        (FreePositioning.mkPosition 200 100);
      FreePositioning.mkItem "item-3" "Item 3"
        (FreePositioning.mkPosition 350 150) ]
  ∧ FreePositioning.mount (FreePositioning.localStorage p)
    = FreePositioning.mkPage (FreePositioning.items p)
        (FreePositioning.localStorage p) [].
Proof.
  intros p. split; [reflexivity|].
  apply (free_reload_restores_items p).
  - apply lookup_insert_eq.
  - reflexivity.
Defined.

(** X20: a value that cannot be decoded is reported once: mounting
    overwrites it with the JSON text of the initial list, so (when that
    text decodes to the initial list again) the next mount logs nothing
    and shows the initial list. *)
Theorem free_mount_repairs_storage {N} `{JsNumber N}
    `{JsonCodec (list (FreePositioning.PositionableItem N))}
    (storage : gmap string string) s :
  storage !! FreePositioning.storage_key = Some s → s ≠ "" →
  JSON_parse s = None →
  JSON_parse (JSON_stringify FreePositioning.initialItems)
  = Some FreePositioning.initialItems →
  let first := FreePositioning.mount storage in
  FreePositioning.console first = ["Failed to parse saved items:"]
  ∧ FreePositioning.localStorage first !! FreePositioning.storage_key
    = Some (JSON_stringify FreePositioning.initialItems)
  ∧ FreePositioning.mount (FreePositioning.localStorage first)
    = FreePositioning.mkPage FreePositioning.initialItems
        (FreePositioning.localStorage first) [].
Proof.
  intros Hkey Hne Hparse Hround first. unfold first.
  rewrite (mount_undecodable storage s Hkey Hne Hparse). simpl.
  split_and!; [done|apply lookup_insert_eq|].
  rewrite (mount_decoded _ (JSON_stringify FreePositioning.initialItems)
             FreePositioning.initialItems);
    [|apply lookup_insert_eq|done].
  by rewrite insert_insert_eq.
Qed.

(** A codec over integer coordinates that knows one text besides the
    empty array: the text it writes for the initial list. *)
Lemma free_mount_repairs_storage_witness :
  let codec : JsonCodec (list (FreePositioning.PositionableItem Z)) :=
    {| JSON_parse := λ s,
         if bool_decide (s = "initial")
         then Some FreePositioning.initialItems else None;
       JSON_stringify := λ _, "initial";
       JSON_parse_empty := eq_refl |} in
  let storage : gmap string string :=
    {[ FreePositioning.storage_key := "{oops" ]} in
  FreePositioning.console
    (FreePositioning.mount
       (FreePositioning.localStorage (FreePositioning.mount storage)))
  = [].
Proof.
  intros codec storage.
  destruct (free_mount_repairs_storage (H0 := codec) storage "{oops")
    as (_ & _ & ->); [apply lookup_singleton_eq|discriminate|reflexivity
                     |reflexivity|reflexivity].
Defined.

(** ** Custom overlay: the start of a drag *)

(** X21: [handleDragStart] on the custom-overlay page never touches the
    list; it stores the first item with the active id, or leaves the
    state alone when there is none; and whatever it stored has no
    influence on the drag end that follows. *)
Theorem overlay_drag_start_picks_item st a :
  CustomOverlay.items (CustomOverlay.handleDragStart st a)
  = CustomOverlay.items st
  ∧ (a ∉ CustomOverlay.id <$> CustomOverlay.items st →
     CustomOverlay.handleDragStart st a = st)
  ∧ (∀ i, position_of CustomOverlay.id a (CustomOverlay.items st) = Some i →
          ∃ item, CustomOverlay.items st !! i = Some item
                  ∧ CustomOverlay.id item = a
                  ∧ CustomOverlay.activeItem (CustomOverlay.handleDragStart st a)
                    = Some item)
  ∧ (∀ event,
       CustomOverlay.handleDragEnd (CustomOverlay.handleDragStart st a) event
       = CustomOverlay.handleDragEnd st event).
Proof.
  assert (CustomOverlay.items (CustomOverlay.handleDragStart st a)
          = CustomOverlay.items st) as Hitems.
  { unfold CustomOverlay.handleDragStart. by destruct (find _ _). }
  split_and!; [done| | |].
  - intros Hnot. unfold CustomOverlay.handleDragStart.
    destruct (find _ _) as [item|] eqn:Hfind; [|done].
    apply find_Some in Hfind as [Hin Hid]. destruct Hnot.
    apply bool_decide_eq_true in Hid. subst a.
    apply list_elem_of_fmap. by exists item.
  - intros i Hi.
    destruct (position_of_Some _ _ _ _ Hi) as (item & Hitem & Hid).
    exists item. split_and!; [done..|].
    unfold CustomOverlay.handleDragStart.
    assert (find (CustomOverlay.has_id a) (CustomOverlay.items st)
            = Some item) as ->; [|done].
    unfold position_of in Hi. revert i Hi Hitem. clear.
    induction (CustomOverlay.items st) as [|u l IH]; intros i Hi Hitem;
      [done|].
    simpl in *. unfold CustomOverlay.has_id at 1.
    destruct (bool_decide (CustomOverlay.id u = a)).
    + injection Hi as <-. simpl in Hitem. by injection Hitem as ->.
    + destruct (find_index _ l) as [i'|]; [|done].
      injection Hi as <-. simpl in Hitem. by apply (IH i').
  - intros event. unfold CustomOverlay.handleDragEnd. by rewrite Hitems.
Qed.

Lemma overlay_drag_start_picks_item_witness :
  CustomOverlay.activeItem
    (CustomOverlay.handleDragStart CustomOverlay.initialState "file-2")
  = Some (CustomOverlay.mkFile "file-2" "Photo.jpg" "image" "3.8 MB").
Proof.
  destruct (overlay_drag_start_picks_item CustomOverlay.initialState "file-2")
    as (_ & _ & Hfound & _).
  destruct (Hfound 1%nat eq_refl) as (item & Hitem & _ & ->).
  symmetry. exact Hitem.
Defined.

(** ** Sortable list: ids that are not in the list *)

Section arrayMove_edges.
Context {A : Type}.
Implicit Types (l : list A).

Lemma arrayMove_to_end l i x :
  l !! i = Some x → arrayMove l (Z.of_nat i) (-1) = Some (delete i l ++ [x]).
Proof.
  intros Hx. unfold arrayMove.
  destruct (splice_remove_at _ _ _ Hx) as [-> ->]. simpl.
  assert (length (delete i l) = length l - 1)%nat as Hlen
    by (apply length_delete; by eexists).
  apply lookup_lt_Some in Hx.
  unfold splice. rewrite Hlen.
  replace (Z.of_nat (length l) + -1) with (Z.of_nat (length l - 1)) by lia.
  rewrite splice_start_nat by lia. simpl.
  rewrite Nat.add_0_r, <-Hlen. by rewrite firstn_all, drop_all.
Qed.

Lemma arrayMove_last l x j :
  (j ≤ length l)%nat →
  arrayMove (l ++ [x]) (-1) (Z.of_nat j) = Some (take j l ++ x :: drop j l).
Proof.
  intros Hj. unfold arrayMove, splice_removed.
  rewrite splice_delete.
  assert (splice_start (length (l ++ [x])) (-1) = length l) as ->.
  { unfold splice_start. rewrite length_app. simpl. lia. }
  rewrite drop_app_length. simpl. rewrite delete_last.
  destruct (Z.ltb_spec (Z.of_nat j) 0); [lia|].
  unfold splice. rewrite splice_start_nat by done. simpl.
  by rewrite Nat.add_0_r.
Qed.

Lemma arrayMove_last_to_end l x :
  arrayMove (l ++ [x]) (-1) (-1) = Some (l ++ [x]).
Proof.
  unfold arrayMove, splice_removed. rewrite splice_delete.
  assert (splice_start (length (l ++ [x])) (-1) = length l) as ->.
  { unfold splice_start. rewrite length_app. simpl. lia. }
  rewrite drop_app_length. simpl. rewrite delete_last.
  unfold splice. rewrite length_app. simpl.
  replace (Z.of_nat (length l + 1) + -1) with (Z.of_nat (length l)) by lia.
  rewrite splice_start_nat by done. simpl.
  by rewrite Nat.add_0_r, firstn_all, drop_all.
Qed.

(** Taking an element out and putting it back where it was. *)
Lemma insert_delete_same l i x :
  l !! i = Some x → take i (delete i l) ++ x :: drop i (delete i l) = l.
Proof.
  intros Hx. rewrite delete_take_drop.
  assert (length (take i l) = i) as Hlen.
  { rewrite length_take. apply lookup_lt_Some in Hx. lia. }
  rewrite take_app_length', drop_app_length' by done.
  by apply take_drop_middle.
Qed.

(** Putting an element in and taking it out again. *)
Lemma delete_insert_same l j x :
  (j ≤ length l)%nat → delete j (take j l ++ x :: drop j l) = l.
Proof.
  intros Hj. rewrite delete_take_drop.
  assert (length (take j l) = j) as Hlen by (rewrite length_take; lia).
  rewrite take_app_length' by done.
  rewrite drop_app_ge, Hlen by lia.
  replace (S j - j)%nat with 1%nat by lia. simpl.
  rewrite drop_0. apply take_drop.
Qed.

(** Moving an element and moving it back. *)
Lemma arrayMove_back l i j x :
  l !! i = Some x → (j < length l)%nat →
  ∃ l', arrayMove l (Z.of_nat i) (Z.of_nat j) = Some l'
        ∧ l' !! j = Some x
        ∧ arrayMove l' (Z.of_nat j) (Z.of_nat i) = Some l.
Proof.
  intros Hx Hj.
  assert (i < length l)%nat as Hi by by eapply lookup_lt_Some.
  assert (length (delete i l) = length l - 1)%nat as Hlen
    by (apply length_delete; by eexists).
  eexists. split; [by apply arrayMove_at|].
  assert ((take j (delete i l) ++ x :: drop j (delete i l)) !! j = Some x)
    as Hat.
  { apply list_lookup_middle. rewrite length_take. lia. }
  split; [done|].
  rewrite (arrayMove_at _ _ _ _ Hat); last first.
  { rewrite length_app, length_take. simpl. rewrite length_drop. lia. }
  rewrite delete_insert_same by lia.
  by rewrite insert_delete_same.
Qed.
End arrayMove_edges.

(** X22: what the sortable list does with ids it does not hold.  When
    only the over id is unknown the dragged item goes to the end of the
    list; when only the active id is unknown the last item of the list is
    moved onto the over item's index; when both are unknown a non-empty
    list stays as it is. *)
Theorem sortable_drop_with_unknown_id a b :
  a ≠ b →
  (∀ items i A,
     position_of SortableList.id a items = Some i → items !! i = Some A →
     position_of SortableList.id b items = None →
     SortableList.handleDragEnd items (mkDragEnd a (Some b))
     = Ok (delete i items ++ [A]))
  ∧ (∀ init last j,
       position_of SortableList.id a (init ++ [last]) = None →
       position_of SortableList.id b (init ++ [last]) = Some j →
       SortableList.handleDragEnd (init ++ [last]) (mkDragEnd a (Some b))
       = Ok (take j init ++ last :: drop j init))
  ∧ (∀ init last,
       position_of SortableList.id a (init ++ [last]) = None →
       position_of SortableList.id b (init ++ [last]) = None →
       SortableList.handleDragEnd (init ++ [last]) (mkDragEnd a (Some b))
       = Ok (init ++ [last])).
Proof.
  intros Hab. unfold position_of.
  split_and!.
  - intros items i A Hi HA Hj.
    unfold SortableList.handleDragEnd. cbn [over active].
    rewrite bool_decide_eq_true_2 by done.
    unfold findIndex, SortableList.has_id. rewrite Hi, Hj.
    by rewrite (arrayMove_to_end _ _ _ HA).
  - intros init last j Hi Hj.
    unfold SortableList.handleDragEnd. cbn [over active].
    rewrite bool_decide_eq_true_2 by done.
    unfold findIndex, SortableList.has_id. rewrite Hi, Hj.
    rewrite arrayMove_last; [done|].
    apply find_index_lt in Hj. rewrite length_app in Hj. simpl in Hj. lia.
  - intros init last Hi Hj.
    unfold SortableList.handleDragEnd. cbn [over active].
    rewrite bool_decide_eq_true_2 by done.
    unfold findIndex, SortableList.has_id. rewrite Hi, Hj.
    by rewrite arrayMove_last_to_end.
Qed.

Lemma sortable_drop_with_unknown_id_witness :
  SortableList.id <$>
    match SortableList.handleDragEnd SortableList.initialItems
            (mkDragEnd "2" (Some "elsewhere")) with
    | Ok items' => items'
    | TypeError => []
    end
  = ["1"; "3"; "4"; "5"; "6"; "2"].
Proof.
  destruct (sortable_drop_with_unknown_id "2" "elsewhere") as (Hend & _);
    [discriminate|].
  rewrite (Hend SortableList.initialItems 1%nat
             (SortableList.mkItem "2" "Build a to-do app" false));
    reflexivity.
Defined.

(** X23: on a list with unique ids a drop can be undone by one more drop:
    after dragging A onto B, dragging A onto the item that now sits where
    A was restores the list. *)
Theorem sortable_drop_can_be_undone items a b i j :
  NoDup (SortableList.id <$> items) → a ≠ b →
  position_of SortableList.id a items = Some i →
  position_of SortableList.id b items = Some j →
  ∃ items' C,
    SortableList.handleDragEnd items (mkDragEnd a (Some b)) = Ok items'
    ∧ items' !! i = Some C
    ∧ SortableList.handleDragEnd items'
        (mkDragEnd a (Some (SortableList.id C))) = Ok items.
Proof.
  intros Hnd Hab Hi Hj.
  destruct (position_of_Some _ _ _ _ Hi) as (A & HA & HidA).
  destruct (position_of_Some _ _ _ _ Hj) as (B & HB & HidB).
  assert (i ≠ j) as Hij by (intros ->; congruence).
  assert (i < length items)%nat as Hilen by by eapply lookup_lt_Some.
  assert (j < length items)%nat as Hjlen by by eapply lookup_lt_Some.
  destruct (arrayMove_back items i j A HA Hjlen)
    as (items' & Hmove & Hat & Hback).
  assert (items' ≡ₚ items) as Hperm by by eapply arrayMove_Some_perm.
  assert (NoDup (SortableList.id <$> items')) as Hnd' by by rewrite Hperm.
  assert (length items' = length items) as Hlen by by rewrite Hperm.
  destruct (lookup_lt_is_Some_2 items' i) as [C HC]; [lia|].
  assert (SortableList.id C ≠ a) as HCa.
  { intros Heq. apply Hij.
    apply (NoDup_lookup (SortableList.id <$> items') i j a Hnd').
    - by rewrite list_lookup_fmap, HC; simpl; rewrite Heq.
    - by rewrite list_lookup_fmap, Hat; simpl; rewrite HidA. }
  exists items', C. split_and!; [|done|].
  - unfold SortableList.handleDragEnd. cbn [over active].
    rewrite bool_decide_eq_true_2 by done.
    unfold position_of in Hi, Hj.
    unfold findIndex, SortableList.has_id. by rewrite Hi, Hj, Hmove.
  - unfold SortableList.handleDragEnd. cbn [over active].
    rewrite bool_decide_eq_true_2 by done.
    pose proof (position_of_lookup SortableList.id items' j A Hnd' Hat) as HpA.
    pose proof (position_of_lookup SortableList.id items' i C Hnd' HC) as HpC.
    rewrite HidA in HpA. unfold position_of in HpA, HpC.
    unfold findIndex, SortableList.has_id. by rewrite HpA, HpC, Hback.
Qed.

Lemma sortable_drop_can_be_undone_witness :
  ∃ items' C,
    SortableList.handleDragEnd SortableList.initialItems
      (mkDragEnd "1" (Some "4")) = Ok items'
    ∧ items' !! 0%nat = Some C
    ∧ SortableList.handleDragEnd items'
        (mkDragEnd "1" (Some (SortableList.id C)))
      = Ok SortableList.initialItems.
Proof.
  apply (sortable_drop_can_be_undone SortableList.initialItems
           "1" "4" 0%nat 3%nat);
    [by_computation|discriminate|reflexivity|reflexivity].
Defined.

(** ** The list pages: reachable states *)

(** X24: whatever is dragged (with any ids) and however often the list is
    reset, the sortable list and the custom-overlay list stay
    permutations of their initial lists, so they are never empty and no
    drag end ever fails on them. *)
Theorem list_pages_never_fail :
  (∀ items, sortable_reachable items →
     items ≡ₚ SortableList.initialItems
     ∧ ∀ event, ∃ items', SortableList.handleDragEnd items event = Ok items')
  ∧ (∀ st, overlay_reachable st →
       CustomOverlay.items st ≡ₚ CustomOverlay.fileItems
       ∧ ∀ event, ∃ st', CustomOverlay.handleDragEnd st event = Ok st').
Proof.
  split.
  - assert (∀ items, sortable_reachable items →
              items ≡ₚ SortableList.initialItems) as Hperm.
    { unfold sortable_reachable. apply rtc_ind_r; [done|].
      intros mid items _ Hstep IH.
      destruct Hstep as [mid event items' Hend|mid]; [|done].
      by rewrite (sortable_handleDragEnd_perm _ _ _ Hend). }
    intros items Hreach. split; [by apply Hperm|].
    intros event. apply sortable_handleDragEnd_total.
    intros ->. apply Hperm, Permutation_length in Hreach. done.
  - assert (∀ st, overlay_reachable st →
              CustomOverlay.items st ≡ₚ CustomOverlay.fileItems) as Hperm.
    { unfold overlay_reachable. apply rtc_ind_r; [done|].
      intros mid st _ Hstep IH.
      destruct Hstep as [mid a|mid event st' Hend|mid]; [| |done].
      - unfold CustomOverlay.handleDragStart. by destruct (find _ _).
      - by rewrite (proj2 (overlay_handleDragEnd_Ok _ _ _ Hend)). }
    intros st Hreach. split; [by apply Hperm|].
    intros event. apply overlay_handleDragEnd_total.
    intros Hnil. apply Hperm, Permutation_length in Hreach.
    by rewrite Hnil in Hreach.
Qed.

Lemma list_pages_never_fail_witness :
  ∃ items',
    SortableList.handleDragEnd
      (SortableList.resetList SortableList.initialItems)
      (mkDragEnd "nobody" (Some "6")) = Ok items'.
Proof.
  destruct list_pages_never_fail as [Hsortable _].
  destruct (Hsortable (SortableList.resetList SortableList.initialItems))
    as [_ Hnever].
  - eapply rtc_l; [apply sortable_reset|apply rtc_refl].
  - apply Hnever.
Defined.

(** ** Labels *)

Lemma split_dash_nonempty s : split_dash s ≠ [].
Proof.
  destruct s as [|c rest]; simpl; [done|].
  case_bool_decide; [done|]. by destruct (split_dash rest).
Qed.

Lemma split_dash_no_dash s : has_dash s = false → split_dash s = [s].
Proof.
  induction s as [|c rest IH]; simpl; [done|].
  intros [Hc Hrest]%orb_false_elim. rewrite Hc. by rewrite (IH Hrest).
Qed.

Lemma split_dash_prefix p rest :
  has_dash p = false →
  split_dash (p +:+ "-" +:+ rest) = p :: split_dash rest.
Proof.
  induction p as [|c p IH]; simpl; [done|].
  intros [Hc Hp]%orb_false_elim. rewrite Hc. by rewrite (IH Hp).
Qed.

(** X25: the labels cut out of ids.  For an id made of two dash-free
    parts, as in item-3 or task-3, the item label is "Item " followed by
    the second part and the card shows "Task #" followed by it; for an id
    without a dash the item label reads "Item undefined" and the card
    shows a bare "Task #". *)
Theorem labels_show_second_part p n :
  has_dash p = false → has_dash n = false →
  item_label (p +:+ "-" +:+ n) = "Item " +:+ n
  ∧ item_label p = "Item undefined"
  ∧ (∀ content priority,
       task_number (Kanban.mkTask (p +:+ "-" +:+ n) content priority)
       = "Task #" +:+ n
       ∧ task_number (Kanban.mkTask p content priority) = "Task #").
Proof.
  intros Hp Hn. unfold item_label, task_number. simpl.
  rewrite (split_dash_prefix p n Hp), (split_dash_no_dash n Hn),
    (split_dash_no_dash p Hp).
  by split_and!.
Qed.

Lemma labels_show_second_part_witness :
  item_label "item-3" = "Item 3" ∧ item_label "root" = "Item undefined".
Proof.
  destruct (labels_show_second_part "item" "3") as (Hlabel & _);
    [reflexivity..|].
  destruct (labels_show_second_part "root" "") as (_ & Hnone & _);
    [reflexivity..|].
  split; [exact Hlabel|exact Hnone].
Defined.

(** ** Custom overlay: where a dropped file lands *)

(** X26: on the custom-overlay page a file dropped on another file of the
    list takes that file's index, the file it was dropped on moves one
    place towards the index the dragged file had, and [activeItem] is
    cleared. *)
Theorem overlay_drop_lands_on_target st a b i j A B :
  a ≠ b →
  position_of CustomOverlay.id a (CustomOverlay.items st) = Some i →
  position_of CustomOverlay.id b (CustomOverlay.items st) = Some j →
  CustomOverlay.items st !! i = Some A →
  CustomOverlay.items st !! j = Some B →
  ∃ items',
    CustomOverlay.handleDragEnd st (mkDragEnd a (Some b))
    = Ok (CustomOverlay.mkState items' None)
    ∧ items' !! j = Some A
    ∧ ((j < i)%nat → items' !! S j = Some B)
    ∧ ((i < j)%nat → items' !! (j - 1)%nat = Some B)
    ∧ length items' = length (CustomOverlay.items st).
Proof.
  intros Hab Hi Hj HA HB.
  destruct (position_of_Some _ _ _ _ Hi) as (A' & HA' & HidA).
  destruct (position_of_Some _ _ _ _ Hj) as (B' & HB' & HidB).
  simplify_eq.
  assert (i ≠ j) as Hij by (intros ->; by simplify_eq).
  assert (j < length (CustomOverlay.items st))%nat as Hjlen
    by by eapply lookup_lt_Some.
  unfold CustomOverlay.handleDragEnd, CustomOverlay.moveItems.
  cbn [over active]. rewrite bool_decide_eq_true_2 by done.
  unfold findIndex, CustomOverlay.has_id.
  unfold position_of in Hi, Hj. rewrite Hi, Hj.
  rewrite (arrayMove_at _ _ _ _ HA Hjlen). simpl.
  eexists. split; [done|].
  destruct (landing_lookup (CustomOverlay.items st) i j A B HA HB Hij)
    as (Hat & Hup & Hdown).
  split_and!; [done..|].
  apply Permutation_length. rewrite insert_at_perm. by apply delete_perm.
Qed.

Lemma overlay_drop_lands_on_target_witness :
  ∃ items',
    CustomOverlay.handleDragEnd
      (CustomOverlay.handleDragStart CustomOverlay.initialState "file-5")
      (mkDragEnd "file-5" (Some "file-2"))
    = Ok (CustomOverlay.mkState items' None)
    ∧ items' !! 1%nat
      = Some (CustomOverlay.mkFile "file-5" "Archive.zip" "archive" "8.1 MB").
Proof.
  destruct (overlay_drop_lands_on_target
              (CustomOverlay.handleDragStart CustomOverlay.initialState "file-5")
              "file-5" "file-2" 4%nat 1%nat
              (CustomOverlay.mkFile "file-5" "Archive.zip" "archive" "8.1 MB")
              (CustomOverlay.mkFile "file-2" "Photo.jpg" "image" "3.8 MB"))
    as (items' & Hend & Hat & _); [discriminate|reflexivity..|].
  exists items'. split; [exact Hend|exact Hat].
Defined.

(** ** Kanban board: when the dragged task is forgotten *)

(** X27: [handleDragEnd] on the Kanban board returns the state exactly as
    it was (dragged task included) when there is no drop target, when the
    task is dropped on itself, or when [findColumnOfTask] answers
    undefined or the empty name for the active id; in every other case a
    successful drag end leaves [activeTask] cleared. *)
Theorem kanban_drag_end_active_task st event :
  (over event = None ∨ over event = Some (active event)
   ∨ truthy (Kanban.findColumnOfTask (Kanban.tasks st) (active event)) = false →
   Kanban.handleDragEnd st event = Ok st)
  ∧ (∀ o st',
       over event = Some o → o ≠ active event →
       truthy (Kanban.findColumnOfTask (Kanban.tasks st) (active event)) = true →
       Kanban.handleDragEnd st event = Ok st' →
       Kanban.activeTask st' = None).
Proof.
  unfold Kanban.handleDragEnd. split.
  - intros [->|[->|Hfalsy]]; [done| |].
    + by rewrite bool_decide_eq_true_2.
    + destruct (over event) as [o|]; [|done].
      case_bool_decide; [done|]. by rewrite Hfalsy.
  - intros o st' -> Hne Htruthy.
    rewrite bool_decide_eq_false_2 by done. rewrite Htruthy. simpl.
    intros Hb. apply bind_Ok in Hb as (b & _ & [= <-]). done.
Qed.

Lemma kanban_drag_end_active_task_witness :
  let dragging := Kanban.handleDragStart Kanban.initialState "task-1" in
  Kanban.handleDragEnd dragging (mkDragEnd "task-1" None) = Ok dragging
  ∧ match Kanban.handleDragEnd dragging (mkDragEnd "task-1" (Some "task-6")) with
    | Ok st' => Kanban.activeTask st' = None
    | TypeError => False
    end.
Proof.
  intros dragging. split.
  - apply (proj1 (kanban_drag_end_active_task dragging
                    (mkDragEnd "task-1" None))).
    by left.
  - destruct (Kanban.handleDragEnd _ _) as [st'|] eqn:Hend.
    + apply (proj2 (kanban_drag_end_active_task dragging
                      (mkDragEnd "task-1" (Some "task-6"))) "task-6" st');
        [reflexivity|discriminate|reflexivity|exact Hend].
    + vm_compute in Hend. discriminate Hend.
Defined.

(** ** The list pages: an empty list *)

(** X28: on an empty list a drop with two different ids fails on both
    list pages: [arrayMove] removes nothing and splices [undefined] into
    the copy, which the next render cannot show; without a drop target,
    or with equal ids, the empty list stays as it is. *)
Theorem list_pages_drop_on_empty_list a b :
  a ≠ b →
  SortableList.handleDragEnd [] (mkDragEnd a (Some b)) = TypeError
  ∧ (∀ dragged, CustomOverlay.handleDragEnd (CustomOverlay.mkState [] dragged)
                  (mkDragEnd a (Some b)) = TypeError)
  ∧ SortableList.handleDragEnd [] (mkDragEnd a None) = Ok []
  ∧ SortableList.handleDragEnd [] (mkDragEnd a (Some a)) = Ok [].
Proof.
  intros Hab. split_and!.
  - unfold SortableList.handleDragEnd. cbn [over active].
    rewrite bool_decide_eq_true_2 by done. by rewrite arrayMove_empty.
  - intros dragged. unfold CustomOverlay.handleDragEnd, CustomOverlay.moveItems.
    cbn [over active CustomOverlay.items].
    rewrite bool_decide_eq_true_2 by done. by rewrite arrayMove_empty.
  - done.
  - unfold SortableList.handleDragEnd. cbn [over active].
    by rewrite bool_decide_eq_false_2 by (intros Hne; by apply Hne).
Qed.

Lemma list_pages_drop_on_empty_list_witness :
  SortableList.handleDragEnd [] (mkDragEnd "1" (Some "2")) = TypeError.
Proof.
  apply (proj1 (list_pages_drop_on_empty_list "1" "2" ltac:(discriminate))).
Defined.
